(** * Verification of the terminal-mode manager and the secure password
    buffer of the [scripting] crate (src/lib.rs, src/tty.rs,
    src/tty/password.rs).

    The model is a shallow embedding:
    - bytes are [Byte.byte], buffers are lists of bytes;
    - [libc::termios] is a record of [Z] fields, flag updates are written
      with [Z.land], [Z.lor] and the 32-bit complement of the mask;
    - a reader ([impl Read]) is a script of read outcomes;
    - the terminal device and the I/O handles form a world threaded
      through a small state-and-error monad. *)

From Stdlib Require Import ZArith NArith Lia Strings.Byte Ascii.
From Stdlib Require Strings.String.
Import (notations) Strings.String.
From stdpp Require Import base list.

Open Scope Z_scope.

(* ------------------------------------------------------------------ *)
(** ** I/O results *)

(** Error kinds of [std::io::Error] that the code can produce. *)
Inductive io_error :=
| InvalidData
| OsError (errno : Z)
| IoError (code : Z).

(** [io::Result<T>] *)
Inductive io_result (A : Type) :=
| Ok (a : A)
| Err (e : io_error).
Arguments Ok {A} a.
Arguments Err {A} e.

(* ------------------------------------------------------------------ *)
(** ** Readers ([impl std::io::Read]) *)

(** One scripted outcome of a [read] call: some bytes are available, or
    the call fails. An empty [RData] is a read that returns 0. *)
Inductive rd_item :=
| RData (bytes : list byte)
| RFail (e : io_error).

Definition Reader := list rd_item.

(** [fd.read(buf)] with [buf.len() = cap]: returns at most [cap] bytes of
    the next available chunk; bytes that do not fit stay available for the
    next call. An exhausted reader returns 0. *)
Definition reader_read (cap : nat) (fd : Reader) : io_result (list byte) * Reader :=
  match fd with
  | [] => (Ok [], [])
  | RFail e :: fd' => (Err e, fd')
  | RData l :: fd' =>
      match drop cap l with
      | [] => (Ok (take cap l), fd')
      | rest => (Ok (take cap l), RData rest :: fd')
      end
  end.

(* ------------------------------------------------------------------ *)
(** ** password.rs *)

Module Pw.

(** [pub const PASSWORD_BUFFER_LEN: usize = 512;] *)
Definition PASSWORD_BUFFER_LEN : nat := 512.

(** [pub struct Password { buf: Box<[u8; PASSWORD_BUFFER_LEN]> }] *)
Record Password := mkPassword { buf : list byte }.

(** [Password::new]: [Box::new([0; PASSWORD_BUFFER_LEN])] *)
Definition new : Password := mkPassword (repeat x00 PASSWORD_BUFFER_LEN).

(** [CStr::from_bytes_until_nul]: the bytes before the first nul, [None]
    when the slice has no nul. *)
Fixpoint from_bytes_until_nul (l : list byte) : option (list byte) :=
  match l with
  | [] => None
  | b :: l' => if Byte.eqb b x00 then Some []
               else option_map (cons b) (from_bytes_until_nul l')
  end.

(** [as_cstr]: [.expect(..)] panics on [None]; the model returns [None]
    for that panic. The [CStr] is represented by its [to_bytes()]. *)
Definition as_cstr (p : Password) : option (list byte) :=
  from_bytes_until_nul (buf p).

(** [as_bytes]: [self.as_cstr().to_bytes()] ([None] = panic). *)
Definition as_bytes (p : Password) : option (list byte) := as_cstr p.

(** UTF-8 validation as done by [CStr::to_str] ([str::from_utf8]):
    well-formed sequences only (no overlong forms, no surrogates, nothing
    above U+10FFFF). *)
Definition in_rng (b : byte) (lo hi : N) : bool :=
  (lo <=? Byte.to_N b)%N && (Byte.to_N b <=? hi)%N.
Definition cont (b : byte) : bool := in_rng b 128 191.

Fixpoint utf8_valid (l : list byte) : bool :=
  match l with
  | [] => true
  | b :: l1 =>
      if in_rng b 0 127 then utf8_valid l1
      else if in_rng b 194 223 then
        match l1 with c1 :: l2 => cont c1 && utf8_valid l2 | _ => false end
      else if in_rng b 224 239 then
        match l1 with
        | c1 :: c2 :: l3 =>
            (if Byte.eqb b xe0 then in_rng c1 160 191
             else if Byte.eqb b xed then in_rng c1 128 159
             else cont c1) && cont c2 && utf8_valid l3
        | _ => false
        end
      else if in_rng b 240 244 then
        match l1 with
        | c1 :: c2 :: c3 :: l4 =>
            (if Byte.eqb b xf0 then in_rng c1 144 191
             else if Byte.eqb b xf4 then in_rng c1 128 143
             else cont c1) && cont c2 && cont c3 && utf8_valid l4
        | _ => false
        end
      else false
  end.

(** [Utf8Error] is only distinguished from success here. *)
Inductive Utf8Error := utf8_error.

(** [as_str]: [self.as_cstr().to_str()]; outer [None] = panic. *)
Definition as_str (p : Password) : option (list byte + Utf8Error) :=
  match as_cstr p with
  | None => None
  | Some b => Some (if utf8_valid b then inl b else inr utf8_error)
  end.

(** A mutable slice handed out by the buffer: [len] bytes from [off]. *)
Record Slice := mkSlice { off : nat; len : nat }.

(** [as_mut_slice]: [self.buf.as_mut_slice()], the whole boxed array. *)
Definition as_mut_slice (p : Password) : Slice := mkSlice 0 (length (buf p)).

(** A caller writing [data] (of the slice's length) through the slice. *)
Definition write_slice (s : Slice) (data : list byte) (p : Password) : Password :=
  mkPassword (take (off s) (buf p) ++ data ++ drop (off s + len s) (buf p)).

(** [fd.read(&mut self.buf[index..])] returning [chunk]: the chunk is copied
    at [index]. *)
Definition copy_at (index : nat) (chunk : list byte) (b : list byte) : list byte :=
  take index b ++ chunk ++ drop (index + length chunk) b.

(** [self.buf[i] == b'\n'] *)
Definition byte_is (b : list byte) (i : nat) (v : byte) : bool :=
  match b !! i with Some x => Byte.eqb x v | None => false end.

(** The [loop] of [read_line]. Every iteration that does not [break]
    advances [index] by [n >= 1] and [index] stays below
    [PASSWORD_BUFFER_LEN - 1], so the loop runs at most 511 times; [fuel]
    starts above that bound and its exhaustion is unreachable. *)
Fixpoint read_line_loop (fuel : nat) (index : nat) (b : list byte) (fd : Reader)
  : io_result unit * list byte * Reader :=
  match fuel with
  | O => (Ok tt, b, fd)
  | S fuel' =>
      (* let buf = &mut self.buf[index..PASSWORD_BUFFER_LEN - 1]; *)
      let cap := (PASSWORD_BUFFER_LEN - 1 - index)%nat in
      (* let n = fd.read(buf)?; *)
      match reader_read cap fd with
      | (Err e, fd') => (Err e, b, fd')
      | (Ok chunk, fd') =>
          let n := length chunk in
          let b1 := copy_at index chunk b in
          if (n =? 0)%nat then (Ok tt, b1, fd')
          else
            let index' := (index + n)%nat in
            if byte_is b1 (index' - 1) x0a
            then (Ok tt, <[ (index' - 1)%nat := x00 ]> b1, fd')
            else if (PASSWORD_BUFFER_LEN - 1 <=? index')%nat
            then (Ok tt, b1, fd')
            else read_line_loop fuel' index' b1 fd'
      end
  end.

(** [Password::read_line]: returns the result, the new password and the
    reader after the call. *)
Definition read_line (p : Password) (fd : Reader) : io_result unit * Password * Reader :=
  let '(r, b, fd') := read_line_loop PASSWORD_BUFFER_LEN 0 (buf p) fd in
  (r, mkPassword b, fd').

(** Events of the destructor and of the deallocation that follows it. *)
Inductive drop_event :=
| EStore (i : nat) (v : byte)    (* a byte store into the heap buffer *)
| ECompilerFence                  (* atomic::compiler_fence(SeqCst) *)
| EFence                          (* atomic::fence(SeqCst) *)
| EDealloc.                       (* the Box's memory is released *)

(** [self.buf.fill(0)]: one zero store per index, in order. *)
Fixpoint fill_from (i : nat) (b : list byte) : list byte * list drop_event :=
  match b with
  | [] => ([], [])
  | _ :: b' => let '(b'', ev) := fill_from (S i) b' in (x00 :: b'', EStore i x00 :: ev)
  end.

(** [impl Drop for Password] followed by the drop of the [Box] field:
    the final contents of the released memory and the event trace. *)
Definition drop (p : Password) : list byte * list drop_event :=
  let '(b', ev) := fill_from 0 (buf p) in
  (b', ev ++ [ECompilerFence; EFence; EDealloc]).

End Pw.

(* ------------------------------------------------------------------ *)
(** ** lib.rs: [Keystroke] *)

Module Key.

(** [pub struct Keystroke([u8; 4]);] *)
Record Keystroke := mkKeystroke { k0 : byte; k1 : byte; k2 : byte; k3 : byte }.

(** [Keystroke::new]: [Self([0; 4])] *)
Definition new : Keystroke := mkKeystroke x00 x00 x00 x00.

(** [self.0 == [a, b, c, d]] *)
Definition eq4 (k : Keystroke) (a b c d : byte) : bool :=
  Byte.eqb (k0 k) a && Byte.eqb (k1 k) b && Byte.eqb (k2 k) c && Byte.eqb (k3 k) d.

Definition is_empty (k : Keystroke) : bool := eq4 k x00 x00 x00 x00.
Definition is_ctrl_c (k : Keystroke) : bool := eq4 k x03 x00 x00 x00.
Definition is_esc (k : Keystroke) : bool := eq4 k x1b x00 x00 x00.
(** [self.0[0] == 27 && self.0[1] == b'['] *)
Definition is_esc_code (k : Keystroke) : bool := Byte.eqb (k0 k) x1b && Byte.eqb (k1 k) x5b.
(** [self.0[0] == 13] *)
Definition is_enter (k : Keystroke) : bool := Byte.eqb (k0 k) x0d.

(** The keystroke after [read] filled its slice with [chunk] (at most 4
    bytes); unread trailing bytes keep their zero. *)
Definition fill (chunk : list byte) (k : Keystroke) : Keystroke :=
  match chunk with
  | [] => k
  | [a] => mkKeystroke a (k1 k) (k2 k) (k3 k)
  | [a; b] => mkKeystroke a b (k2 k) (k3 k)
  | [a; b; c] => mkKeystroke a b c (k3 k)
  | a :: b :: c :: d :: _ => mkKeystroke a b c d
  end.

End Key.

(* ------------------------------------------------------------------ *)
(** ** tty.rs: [libc::termios] and the mode transforms *)

Module Tty.

(** [libc::termios] on Linux. *)
Record termios := mkTermios {
  c_iflag : Z; c_oflag : Z; c_cflag : Z; c_lflag : Z;
  c_line : Z; c_cc : list Z; c_ispeed : Z; c_ospeed : Z }.

(** Linux values of the libc constants used by tty.rs. *)
Definition BRKINT : Z := 2.       (* 0o000002 *)
Definition INPCK  : Z := 16.      (* 0o000020 *)
Definition ISTRIP : Z := 32.      (* 0o000040 *)
Definition INLCR  : Z := 64.      (* 0o000100 *)
Definition ICRNL  : Z := 256.     (* 0o000400 *)
Definition IXON   : Z := 1024.    (* 0o002000 *)
Definition IUTF8  : Z := 16384.   (* 0o040000 *)
Definition OPOST  : Z := 1.
Definition ISIG   : Z := 1.
Definition ICANON : Z := 2.
Definition ECHO   : Z := 8.
Definition ECHONL : Z := 64.
Definition IEXTEN : Z := 32768.   (* 0o100000 *)
Definition CS8    : Z := 48.      (* 0o000060 *)
Definition VTIME  : nat := 5.
Definition VMIN   : nat := 6.
Definition NCCS   : nat := 32.

(** [!m] on a [tcflag_t] ([u32]). *)
Definition not32 (m : Z) : Z := Z.land (Z.lnot m) (2 ^ 32 - 1).

(** [x &= !m] and [x |= m] *)
Definition clear (x m : Z) : Z := Z.land x (not32 m).
Definition setb (x m : Z) : Z := Z.lor x m.

Definition upd_iflag (f : Z -> Z) (t : termios) : termios :=
  mkTermios (f (c_iflag t)) (c_oflag t) (c_cflag t) (c_lflag t) (c_line t) (c_cc t) (c_ispeed t) (c_ospeed t).
Definition upd_oflag (f : Z -> Z) (t : termios) : termios :=
  mkTermios (c_iflag t) (f (c_oflag t)) (c_cflag t) (c_lflag t) (c_line t) (c_cc t) (c_ispeed t) (c_ospeed t).
Definition upd_cflag (f : Z -> Z) (t : termios) : termios :=
  mkTermios (c_iflag t) (c_oflag t) (f (c_cflag t)) (c_lflag t) (c_line t) (c_cc t) (c_ispeed t) (c_ospeed t).
Definition upd_lflag (f : Z -> Z) (t : termios) : termios :=
  mkTermios (c_iflag t) (c_oflag t) (c_cflag t) (f (c_lflag t)) (c_line t) (c_cc t) (c_ispeed t) (c_ospeed t).
(** [t.c_cc[i] = v]; [c_cc] has [NCCS] entries and [VMIN], [VTIME] are in
    range, so the index never panics. *)
Definition upd_cc (i : nat) (v : Z) (t : termios) : termios :=
  mkTermios (c_iflag t) (c_oflag t) (c_cflag t) (c_lflag t) (c_line t) (<[i := v]> (c_cc t)) (c_ispeed t) (c_ospeed t).

(** The closures passed to [with_termios] by each transform. *)
Definition raw_f (t : termios) : termios :=
  upd_cflag (fun x => clear x CS8)
    (upd_oflag (fun x => clear x OPOST)
      (upd_lflag (fun x => clear x (Z.lor (Z.lor (Z.lor ECHO ICANON) IEXTEN) ISIG))
        (upd_iflag (fun x => clear x (Z.lor (Z.lor (Z.lor (Z.lor (Z.lor IXON ICRNL) BRKINT) INPCK) ISTRIP) INLCR)) t))).

Definition cooked_f (t : termios) : termios :=
  upd_lflag (fun x => setb x (Z.lor (Z.lor ECHO ECHONL) ICANON))
    (upd_iflag (fun x => setb x IUTF8) t).

Definition disable_output_processing_f := upd_oflag (fun x => clear x OPOST).
Definition enable_output_processing_f := upd_oflag (fun x => setb x OPOST).
Definition enable_echo_f := upd_lflag (fun x => setb x (Z.lor ECHO ECHONL)).
Definition disable_echo_f := upd_lflag (fun x => clear x (Z.lor ECHO ECHONL)).

Definition password_f (t : termios) : termios :=
  upd_lflag (fun x => setb x (Z.lor ECHONL ICANON)) (upd_lflag (fun x => clear x ECHO) t).

Definition disable_flow_control_f := upd_iflag (fun x => clear x IXON).
Definition enable_flow_control_f := upd_iflag (fun x => setb x IXON).

(** [std::time::Duration] with [nanos < 1_000_000_000]. *)
Record Duration := mkDuration { secs : N; nanos : N }.

(** [Duration::as_millis] *)
Definition as_millis (d : Duration) : N := (secs d * 1000 + nanos d / 1000000)%N.
Definition as_nanos (d : Duration) : N := (secs d * 1000000000 + nanos d)%N.

(** [let tenths = match vtime.as_millis() / 100 { 0 => 1, 1..=255 => tenths as u8, _ => 255 }] *)
Definition tenths_of (d : Duration) : Z :=
  let tenths := (as_millis d / 100)%N in
  if (tenths =? 0)%N then 1
  else if (tenths <=? 255)%N then Z.of_N tenths
  else 255.

Definition input_timeout_f (d : Duration) (t : termios) : termios :=
  upd_cc VTIME (tenths_of d) (upd_cc VMIN 0 t).

Definition disable_input_timeout_f (t : termios) : termios :=
  upd_cc VTIME 0 (upd_cc VMIN 1 t).

(** [pub enum SetAction] *)
Inductive SetAction := TCSAFLUSH | TCSANOW | TCSADRAIN.

(** [pub struct Term<I, O> { fd_out, fd_in, t: (termios, termios) }]: the
    handles live in the world below; the session keeps [(original, working)]. *)
Record Term := mkTerm { orig : termios; work : termios }.

(** [with_termios(f)]: [f(&mut self.t.1)] *)
Definition with_termios (f : termios -> termios) (T : Term) : Term :=
  mkTerm (orig T) (f (work T)).

Definition raw_mode := with_termios raw_f.
Definition cooked_mode := with_termios cooked_f.
Definition disable_output_processing := with_termios disable_output_processing_f.
Definition enable_output_processing := with_termios enable_output_processing_f.
Definition enable_echo := with_termios enable_echo_f.
Definition disable_echo := with_termios disable_echo_f.
Definition password_mode := with_termios password_f.
Definition disable_flow_control := with_termios disable_flow_control_f.
Definition enable_flow_control := with_termios enable_flow_control_f.
Definition input_timeout (d : Duration) := with_termios (input_timeout_f d).
Definition disable_input_timeout := with_termios disable_input_timeout_f.

End Tty.

(* ------------------------------------------------------------------ *)
(** ** The terminal device, the I/O handles and the session monad *)

Module Sess.
Import Tty.

(** Observable effects, in the order they happen. *)
Inductive event :=
| ESetAttr (act : SetAction) (t : termios) (ok : bool) (* tcsetattr(fd_out, act, &t) *)
| ERead (cap : nat)                                    (* term.read(buf), buf.len() = cap *)
| EWrite (bytes : list byte) (ok : bool)               (* write to fd_out *)
| EFlush (ok : bool).                                  (* flush of fd_out *)

(** The world outside the session: the terminal device behind [fd_out]
    ([dev] is its current attribute block, [is_tty] says whether
    tcgetattr succeeds, [set_script] gives the outcome of the successive
    tcsetattr calls, [None] or an exhausted script meaning success), the
    input handle [fd_in], the outcomes of the successive write/flush calls
    on [fd_out], and the trace of effects. *)
Record World := mkWorld {
  dev : termios; is_tty : bool; set_script : list (option io_error);
  input : Reader; out_script : list (option io_error); trace : list event }.

Record St := mkSt { term : Term; world : World }.

(** A session operation: state passing with errors ([io::Result] and [?]). *)
Definition M (A : Type) : Type := St -> io_result A * St.

Global Instance M_ret : MRet M := fun A a s => (Ok a, s).
Global Instance M_bind : MBind M := fun A B k m s =>
  match m s with
  | (Ok a, s') => k a s'
  | (Err e, s') => (Err e, s')
  end.

(** [let r = op;] without [?]: the result is kept as a value. *)
Definition catch {A} (m : M A) : M (io_result A) :=
  fun s => let '(r, s') := m s in (Ok r, s').
(** Returning a kept [io::Result] as the function's result. *)
Definition lift {A} (r : io_result A) : M A := fun s => (r, s).

(** A transform of the session ([&mut self] methods returning [&mut Self]). *)
Definition modify (f : Term -> Term) : M unit :=
  fun s => (Ok tt, mkSt (f (term s)) (world s)).

Definition log (ev : event) (w : World) : World :=
  mkWorld (dev w) (is_tty w) (set_script w) (input w) (out_script w) (trace w ++ [ev]).

(** [tcgetattr(fd_out)] with [io_result]: ENOTTY when not a terminal. *)
Definition get_termios (w : World) : io_result termios :=
  if is_tty w then Ok (dev w) else Err (OsError 25).

(** [set_termios(fd_out, action, t)]: on success the device takes [t]. *)
Definition set_termios (act : SetAction) (t : termios) (w : World) : io_result unit * World :=
  match set_script w with
  | Some e :: sc =>
      (Err e, log (ESetAttr act t false)
                (mkWorld (dev w) (is_tty w) sc (input w) (out_script w) (trace w)))
  | sc =>
      (Ok tt, log (ESetAttr act t true)
                (mkWorld t (is_tty w) (tail sc) (input w) (out_script w) (trace w)))
  end.

(** [Term::new(input, output)] *)
Definition new (w : World) : io_result Term :=
  match get_termios w with
  | Ok t => Ok (mkTerm t t)
  | Err e => Err e
  end.

(** [Term::save] *)
Definition save : M unit :=
  fun s => match get_termios (world s) with
           | Ok t => (Ok tt, mkSt (mkTerm t t) (world s))
           | Err e => (Err e, s)
           end.

(** [Term::set]: [set_termios(self.fd_out.as_raw_fd(), action, &self.t.1)] *)
Definition set (act : SetAction) : M unit :=
  fun s => let '(r, w') := set_termios act (work (term s)) (world s) in
           (r, mkSt (term s) w').

(** [Term::reset]: [self.t.1 = self.t.0.clone(); self.set(action)] *)
Definition reset (act : SetAction) : M unit :=
  modify (fun T => mkTerm (orig T) (orig T));; set act.

(** [Term::read]: [self.fd_in.read(buf)] with [buf.len() = cap]. *)
Definition read (cap : nat) : M (list byte) :=
  fun s => let w := world s in
           let '(r, fd') := reader_read cap (input w) in
           (r, mkSt (term s)
                 (log (ERead cap) (mkWorld (dev w) (is_tty w) (set_script w) fd' (out_script w) (trace w)))).

(** One write or flush call on [fd_out], failing as scripted. *)
Definition out_op (ev : bool -> event) : M unit :=
  fun s => let w := world s in
           match out_script w with
           | Some e :: sc =>
               (Err e, mkSt (term s) (log (ev false) (mkWorld (dev w) (is_tty w) (set_script w) (input w) sc (trace w))))
           | sc =>
               (Ok tt, mkSt (term s) (log (ev true) (mkWorld (dev w) (is_tty w) (set_script w) (input w) (tail sc) (trace w))))
           end.

(** [write!(self, "{}: ", prompt)], taken as one write of the formatted
    bytes. *)
Definition write_all (bytes : list byte) : M unit := out_op (EWrite bytes).
(** [self.fd_out.flush()] *)
Definition flush : M unit := out_op EFlush.

(** [pw.read_line(&mut self.fd_in)] *)
Definition read_line (pw : Pw.Password) : M Pw.Password :=
  fun s => let w := world s in
           let '(r, pw', fd') := Pw.read_line pw (input w) in
           let s' := mkSt (term s) (mkWorld (dev w) (is_tty w) (set_script w) fd' (out_script w) (trace w)) in
           match r with Ok _ => (Ok pw', s') | Err e => (Err e, s') end.

(** [get_raw_keystroke]: one read into the 4-byte keystroke. *)
Definition get_raw_keystroke : M Key.Keystroke :=
  chunk ← read 4; mret (Key.fill chunk Key.new).

(** [keystroke]:
    [term.raw_mode().set(SetAction::TCSAFLUSH)?;
     let keystroke = get_raw_keystroke(term);
     term.reset(SetAction::TCSANOW)?;
     keystroke] *)
Definition keystroke : M Key.Keystroke :=
  modify raw_mode;;
  set TCSAFLUSH;;
  k ← catch get_raw_keystroke;
  reset TCSANOW;;
  lift k.

(** [Term::prompt_for_password]:
    [self.password_mode().set(SetAction::TCSAFLUSH)?;
     let mut pw = Password::new();
     write!(self, "{}: ", prompt)?;
     self.fd_out.flush()?;
     pw.read_line(&mut self.fd_in)?;
     self.reset(SetAction::TCSAFLUSH)?;
     Ok(pw)] *)
Definition prompt_for_password (prompt : list byte) : M Pw.Password :=
  modify password_mode;;
  set TCSAFLUSH;;
  let pw := Pw.new in
  write_all (prompt ++ [x3a; x20]);;
  flush;;
  pw' ← read_line pw;
  reset TCSAFLUSH;;
  mret pw'.

End Sess.

(* ------------------------------------------------------------------ *)
(** ** Sequences of mode transforms *)

Module Ops.
Import Tty Sess.

(** The transform calls a caller may chain on a session, and [set]
    commits in between whose result is discarded ([_ = t.set(a)]). *)
Inductive op :=
| ORaw | OCooked | OPassword
| OEnableEcho | ODisableEcho
| OEnableOutput | ODisableOutput
| OEnableFlow | ODisableFlow
| OTimeout (d : Duration) | ONoTimeout
| OWith (f : termios -> termios)
| OSet (act : SetAction).

Definition run_op (o : op) : M unit :=
  match o with
  | ORaw => modify raw_mode
  | OCooked => modify cooked_mode
  | OPassword => modify password_mode
  | OEnableEcho => modify enable_echo
  | ODisableEcho => modify disable_echo
  | OEnableOutput => modify enable_output_processing
  | ODisableOutput => modify disable_output_processing
  | OEnableFlow => modify enable_flow_control
  | ODisableFlow => modify disable_flow_control
  | OTimeout d => modify (input_timeout d)
  | ONoTimeout => modify disable_input_timeout
  | OWith f => modify (with_termios f)
  | OSet act => _ ← catch (set act); mret tt
  end.

Fixpoint run_ops (os : list op) : M unit :=
  match os with
  | [] => mret tt
  | o :: os' => run_op o;; run_ops os'
  end.

End Ops.


(** Byte equality is decidable (for [decide] on membership in byte lists). *)
Global Instance byte_eq_dec : EqDecision byte := Byte.byte_eq_dec.

(* ------------------------------------------------------------------ *)
(** ** Sample inputs *)

Module Sample.
Import Tty Sess.

(** The attribute block of a Linux console in its default cooked mode
    (ICRNL|IXON; OPOST|ONLCR; B38400|CS8|CREAD|HUPCL; ISIG|ICANON|ECHO|
    ECHOE|ECHOK|ECHOCTL|ECHOKE|IEXTEN). *)
Definition termios0 : termios :=
  mkTermios 1280 5 191 35387 0
    [3; 28; 127; 21; 4; 0; 1; 0; 17; 19; 26; 0; 18; 15; 23; 22;
     0; 0; 0; 0; 0; 0; 0; 0; 0; 0; 0; 0; 0; 0; 0; 0] 15 15.

(** A session freshly created on that terminal, with the given outcomes
    of tcsetattr and the given input. *)
Definition state0 (sets : list (option io_error)) (inp : Reader) : St :=
  mkSt (mkTerm termios0 termios0) (mkWorld termios0 true sets inp [] []).

Definition hello : list byte := [x68; x65; x6c; x6c; x6f].
Definition world_ : list byte := [x77; x6f; x72; x6c; x64].

End Sample.

(* ------------------------------------------------------------------ *)
(** ** lib.rs: the interactive helpers *)

(** Text written to the process's stdout, as Unicode scalar values. *)
Definition txt (s : String.string) : list Z :=
  map (fun a => Z.of_N (Ascii.N_of_ascii a)) (String.list_ascii_of_string s).

(** How a call that may loop forever or panic ends within [fuel]
    iterations of its [loop]: it returns, it panics, or it is still
    looping. *)
Inductive outcome (A : Type) :=
| Returns (a : A)
| Panics
| Running.
Arguments Returns {A} a.
Arguments Panics {A}.
Arguments Running {A}.

Module Lib.

(** [u32::from_ne_bytes(self.0)] on the little-endian targets the crate
    builds for (x86_64 and aarch64 Linux). *)
Definition u32_of_keystroke (k : Key.Keystroke) : Z :=
  Z.of_N (Byte.to_N (Key.k0 k)) + 256 * Z.of_N (Byte.to_N (Key.k1 k))
  + 65536 * Z.of_N (Byte.to_N (Key.k2 k)) + 16777216 * Z.of_N (Byte.to_N (Key.k3 k)).

(** [char::from_u32]: a Unicode scalar value, below 0x110000 and not a
    surrogate (0xD800..=0xDFFF). *)
Definition char_from_u32 (u : Z) : option Z :=
  if (u <? 55296) || ((57343 <? u) && (u <? 1114112)) then Some u else None.

(** [Keystroke::as_char] *)
Definition as_char (k : Key.Keystroke) : option Z := char_from_u32 (u32_of_keystroke k).

(** The [print!] at the top of [prompt_yn]'s loop. *)
Definition yn_prompt (default : option bool) (msg : list Z) : list Z :=
  match default with
  | Some true => msg ++ txt " [yn] (default y)? "
  | Some false => msg ++ txt " [yn] (default n)? "
  | None => msg ++ txt " [yn]? "
  end.

(** The rest of [prompt_yn]'s loop body once the keystroke is read:
    [Some b] is [return b], [None] is the next iteration.
    [if keystroke.is_enter() { if let Some(default) = default { return default; } }
     if let Some(c) = keystroke.as_char() {
         match c { 'y' | 'Y' => return true, 'n' | 'N' => return false, _ => continue } }] *)
Definition yn_decide (default : option bool) (k : Key.Keystroke) : option bool :=
  match Key.is_enter k, default with
  | true, Some d => Some d
  | _, _ =>
      match as_char k with
      | Some c =>
          if (c =? 121) || (c =? 89) then Some true
          else if (c =? 110) || (c =? 78) then Some false
          else None
      | None => None
      end
  end.

(** [prompt_yn(term, default, msg)]: the result, the lines printed to
    stdout and the session. [keystroke(term).unwrap()] panics on an error. *)
Fixpoint prompt_yn (fuel : nat) (default : option bool) (msg : list Z) (s : Sess.St)
  : outcome bool * list (list Z) * Sess.St :=
  match fuel with
  | O => (Running, [], s)
  | S fuel' =>
      let out := yn_prompt default msg in
      match Sess.keystroke s with
      | (Err _, s') => (Panics, [out], s')
      | (Ok k, s') =>
          match yn_decide default k with
          | Some b => (Returns b, [out], s')
          | None =>
              let '(r, outs, s'') := prompt_yn fuel' default msg s' in
              (r, out :: outs, s'')
          end
      end
  end.

(** [press_any_key]: every result is discarded.
    [writeln!(term, "Press any key to continue.");
     _ = term.flush();
     _ = term.raw_mode().set(SetAction::TCSAFLUSH);
     _ = keystroke(term);
     _ = term.reset(SetAction::TCSANOW);] *)
Definition press_any_key : Sess.M unit :=
  _ ← Sess.catch (Sess.write_all (String.list_byte_of_string "Press any key to continue."%string ++ [x0a]));
  _ ← Sess.catch Sess.flush;
  _ ← Sess.catch (Sess.modify Tty.raw_mode;; Sess.set Tty.TCSAFLUSH);
  _ ← Sess.catch Sess.keystroke;
  _ ← Sess.catch (Sess.reset Tty.TCSANOW);
  mret tt.

(** [choices.contains(&[c])] *)
Definition contains (choices : list Z) (c : Z) : bool := existsb (Z.eqb c) choices.

(** The [for line in menu] loop of [prompt_menu]: the lines printed and
    the options ([None] is the duplicate-option panic). A line's first
    char is its option; the line is printed as ["{opt}){rest}"] only when
    it has more chars; an empty line is skipped. *)
Fixpoint menu_options (choices : list Z) (menu : list (list Z)) : list (list Z) * option (list Z) :=
  match menu with
  | [] => ([], Some choices)
  | [] :: menu' => menu_options choices menu'
  | (opt :: rest) :: menu' =>
      if contains choices opt then ([], None)
      else
        let printed := match rest with [] => [] | _ => [opt :: 41 :: rest ++ [10]] end in
        let '(outs, r) := menu_options (choices ++ [opt]) menu' in
        (printed ++ outs, r)
  end.

(** The [print!] at the top of [prompt_menu]'s loop. *)
Definition menu_prompt (default : option Z) (prompt choices : list Z) : list Z :=
  match default with
  | Some d => [10] ++ prompt ++ txt " [" ++ choices ++ txt "] (default " ++ [d] ++ txt ")? "
  | None => [10] ++ prompt ++ txt " [" ++ choices ++ txt "]? "
  end.

(** The [loop] of [prompt_menu]. *)
Fixpoint menu_loop (fuel : nat) (default : option Z) (prompt choices : list Z) (s : Sess.St)
  : outcome Z * list (list Z) * Sess.St :=
  match fuel with
  | O => (Running, [], s)
  | S fuel' =>
      let out := menu_prompt default prompt choices in
      match Sess.keystroke s with
      | (Err _, s') => (Panics, [out], s')
      | (Ok k, s') =>
          match Key.is_enter k, default with
          | true, Some d => (Returns d, [out], s')
          | _, _ =>
              match as_char k with
              | Some c =>
                  if contains choices c then (Returns c, [out], s')
                  else
                    let '(r, outs, s'') := menu_loop fuel' default prompt choices s' in
                    (r, out :: ([39; c; 39] ++ txt " is not a menu option" ++ [10]) :: outs, s'')
              | None =>
                  let '(r, outs, s'') := menu_loop fuel' default prompt choices s' in
                  (r, out :: outs, s'')
              end
          end
      end
  end.

(** [prompt_menu(term, default, prompt, menu)]: builds the options,
    panics when the default is not one of them, then loops. *)
Definition prompt_menu (fuel : nat) (default : option Z) (prompt : list Z)
  (menu : list (list Z)) (s : Sess.St) : outcome Z * list (list Z) * Sess.St :=
  match menu_options [] menu with
  | (outs, None) => (Panics, outs, s)
  | (outs, Some choices) =>
      let ok := match default with Some d => contains choices d | None => true end in
      if ok then
        let '(r, outs', s') := menu_loop fuel default prompt choices s in
        (r, outs ++ outs', s')
      else (Panics, outs, s)
  end.

End Lib.

(* ------------------------------------------------------------------ *)
(** ** lib.rs: running under doas *)

Module Doas.

(** The process: its effective uid, its environment, the result of
    [std::env::current_exe()], its arguments ([args_os()], argv[0]
    included) and whether [execvp] succeeds. *)
Record Proc := mkProc {
  euid : N;
  env : list (list byte * list byte);
  current_exe : io_result (list byte);
  args : list (list byte);
  exec_ok : bool }.

(** How [ensure_running_doas] ends: it returns [Ok((user, uid))], it
    returns [Err(e)] with the environment it leaves, it panics, or the
    process image is replaced by [execvp(file, argv)] with environment
    [env]. *)
Inductive doas_outcome :=
| DReturns (user : list byte) (uid : N)
| DErr (e : io_error) (env : list (list byte * list byte))
| DPanics
| DExec (file : list byte) (argv : list (list byte)) (env : list (list byte * list byte)).

(** [is_root_user]: [geteuid().is_root()] *)
Definition is_root_user (p : Proc) : bool := (euid p =? 0)%N.

Fixpoint env_lookup (e : list (list byte * list byte)) (k : list byte) : option (list byte) :=
  match e with
  | [] => None
  | (k', v) :: e' => if bool_decide (k' = k) then Some v else env_lookup e' k
  end.

(** [std::env::var(k)]: [Err] when unset or not valid Unicode. *)
Definition env_var (e : list (list byte * list byte)) (k : list byte) : option (list byte) :=
  match env_lookup e k with
  | Some v => if Pw.utf8_valid v then Some v else None
  | None => None
  end.

(** [std::env::set_var(k, v)] *)
Definition set_var (e : list (list byte * list byte)) (k v : list byte) : list (list byte * list byte) :=
  (k, v) :: List.filter (fun kv => negb (bool_decide (fst kv = k))) e.

Definition digit_byte (d : N) : byte :=
  nth (N.to_nat d) [x30; x31; x32; x33; x34; x35; x36; x37; x38; x39] x30.

(** Decimal digits of [n], most significant first, before [acc]. *)
Fixpoint dec_aux (fuel : nat) (n : N) (acc : list byte) : list byte :=
  match fuel with
  | O => acc
  | S fuel' =>
      if (n <? 10)%N then digit_byte n :: acc
      else dec_aux fuel' (n / 10) (digit_byte (n mod 10) :: acc)
  end.

(** [u32::to_string]: a [u32] has at most 10 decimal digits. *)
Definition u32_to_string (n : N) : list byte := dec_aux 10 n [].

(** [char::to_digit(10)] on one byte. *)
Definition digit_of (c : byte) : option N :=
  let v := Byte.to_N c in
  if (48 <=? v)%N && (v <=? 57)%N then Some (v - 48)%N else None.

(** The digit loop of [u32::from_str_radix(s, 10)]:
    [result = result.checked_mul(10)?.checked_add(d)?]. *)
Fixpoint parse_digits (acc : N) (l : list byte) : option N :=
  match l with
  | [] => Some acc
  | c :: l' =>
      match digit_of c with
      | Some d => let v := (acc * 10 + d)%N in
                  if (v <? 2 ^ 32)%N then parse_digits v l' else None
      | None => None
      end
  end.

(** [s.parse::<u32>()]: empty is an error, a lone sign is an error, one
    leading ['+'] is skipped, ['-'] is not a digit of an unsigned type. *)
Definition parse_u32 (s : list byte) : option N :=
  match s with
  | [] => None
  | [c] => if Byte.eqb c x2b || Byte.eqb c x2d then None else parse_digits 0 s
  | c :: rest => if Byte.eqb c x2b then parse_digits 0 rest else parse_digits 0 s
  end.

Definition has_nul (l : list byte) : bool := existsb (fun b => Byte.eqb b x00) l.

(** [doas(executable, cli_args)] up to the [execvp]: [None] is the
    [NulError] of [CString::new(executable)]; otherwise the argv passed
    to [execvp("doas", ..)]: the executable, then every argument
    [CString::new] accepts ([.flatten()] drops the others). *)
Definition doas_argv (executable : list byte) (cli_args : list (list byte)) : option (list (list byte)) :=
  let cstring_args := List.filter (fun a => negb (has_nul a)) cli_args in
  if has_nul executable then None else Some (executable :: cstring_args).

Definition DOAS_USER : list byte := String.list_byte_of_string "DOAS_USER"%string.
Definition DOAS_UID : list byte := String.list_byte_of_string "DOAS_UID"%string.
Definition doas_bin : list byte := String.list_byte_of_string "doas"%string.

(** [ensure_running_doas] *)
Definition ensure_running_doas (p : Proc) : doas_outcome :=
  if is_root_user p then
    match env_var (env p) DOAS_USER with
    | None => DPanics
    | Some user =>
        match env_var (env p) DOAS_UID with
        | None => DPanics
        | Some v =>
            match parse_u32 v with
            | Some uid => DReturns user uid
            | None => DPanics
            end
        end
    end
  else
    let env' := set_var (env p) DOAS_UID (u32_to_string (euid p)) in
    match current_exe p with
    | Err e => DErr e env'
    | Ok exe =>
        match doas_argv exe (args p) with
        | None => DPanics
        | Some argv => if exec_ok p then DExec doas_bin argv env' else DPanics
        end
    end.

End Doas.

(** A [tcflag_t] field holds a [u32]. *)
Definition u32_ok (x : Z) : bool := (0 <=? x) && (x <? 2 ^ 32).
Definition flags_ok (t : Tty.termios) : bool :=
  u32_ok (Tty.c_iflag t) && u32_ok (Tty.c_oflag t) && u32_ok (Tty.c_cflag t) && u32_ok (Tty.c_lflag t).

(* ================================================================== *)
(** Helpers for stating properties. *)

Definition is_ok {A} (r : io_result A) : bool :=
  match r with Ok _ => true | Err _ => false end.

Definition restored (c : Tty.termios) (act : Tty.SetAction)
  (r : io_result unit) (s' : Sess.St) : Prop :=
  Tty.orig (Sess.term s') = c /\ Tty.work (Sess.term s') = c /\
  last (Sess.trace (Sess.world s')) = Some (Sess.ESetAttr act c (is_ok r)) /\
  (r = Ok tt -> Sess.dev (Sess.world s') = c).

(** The result [get_raw_keystroke] produces from a read outcome. *)
Definition key_of (r : io_result (list byte)) : io_result Key.Keystroke :=
  match r with Ok ch => Ok (Key.fill ch Key.new) | Err e => Err e end.

(** The first decided value of a list of steps. *)
Fixpoint first_some {A} (l : list (option A)) : option A :=
  match l with
  | [] => None
  | Some a :: _ => Some a
  | None :: l' => first_some l'
  end.

(** What [prompt_yn] decides on the keystrokes [ks], one per read. *)
Definition yn_answer (default : option bool) (ks : list (list byte)) : option bool :=
  first_some (map (fun c => Lib.yn_decide default (Key.fill c Key.new)) ks).

(** The first chars of the non-empty menu lines. *)
Definition menu_heads (menu : list (list Z)) : list Z :=
  flat_map (fun l => match l with [] => [] | c :: _ => [c] end) menu.

(** * Properties *)

Lemma byte_eqb_iff (a b : byte) : Byte.eqb a b = true <-> a = b.
Proof. split; [apply Byte.byte_dec_bl | apply Byte.byte_dec_lb]. Qed.

(* ------------------------------------------------------------------ *)
(** ** Keystroke classification *)

(** C10: [is_enter] looks at the first byte only, so every keystroke
    starting with 0x0D is "enter" ([13, 10, 0, 0] included), while
    [is_ctrl_c], [is_esc] and [is_empty] hold exactly for [3,0,0,0],
    [27,0,0,0] and [0,0,0,0]. *)
Theorem is_enter_first_byte_only :
  (forall b c d : byte, Key.is_enter (Key.mkKeystroke x0d b c d) = true) /\
  Key.is_enter (Key.mkKeystroke x0d x0a x00 x00) = true /\
  (forall k, Key.is_ctrl_c k = true <-> k = Key.mkKeystroke x03 x00 x00 x00) /\
  (forall k, Key.is_esc k = true <-> k = Key.mkKeystroke x1b x00 x00 x00) /\
  (forall k, Key.is_empty k = true <-> k = Key.mkKeystroke x00 x00 x00 x00).
Proof.
  assert (Heq4 : forall k a b c d,
            Key.eq4 k a b c d = true <-> k = Key.mkKeystroke a b c d).
  { intros [k0 k1 k2 k3] a b c d; unfold Key.eq4; simpl.
    rewrite !andb_true_iff, !byte_eqb_iff.
    split; [intros [[[-> ->] ->] ->]; reflexivity
           | intros Hk; injection Hk as -> -> -> ->; tauto]. }
  split; [intros; reflexivity |].
  split; [reflexivity |].
  split; [intros k; apply Heq4 |].
  split; intros k; apply Heq4.
Qed.

(* ------------------------------------------------------------------ *)
(** ** Raw mode *)

Lemma land_clear_0 (x m b : Z) :
  Z.land (Tty.not32 m) b = 0 -> Z.land (Tty.clear x m) b = 0.
Proof. intros H; unfold Tty.clear; rewrite <- Z.land_assoc, H; apply Z.land_0_r. Qed.

(** C8: raw mode clears IXON, ICRNL, BRKINT, INPCK, ISTRIP (input flags),
    ECHO, ICANON, IEXTEN, ISIG (local flags), OPOST (output flags) and the
    CS8 bits (control flags) of the working snapshot, and as a session
    operation leaves the original snapshot and the world (the device, the
    handles, the trace) untouched. *)
Theorem raw_mode_clears_flags (s : Sess.St) :
  let '(r, s') := Sess.modify Tty.raw_mode s in
  let t := Tty.work (Sess.term s') in
  r = Ok tt /\ Sess.world s' = Sess.world s /\
  Tty.orig (Sess.term s') = Tty.orig (Sess.term s) /\
  Z.land (Tty.c_iflag t) Tty.IXON = 0 /\ Z.land (Tty.c_iflag t) Tty.ICRNL = 0 /\
  Z.land (Tty.c_iflag t) Tty.BRKINT = 0 /\ Z.land (Tty.c_iflag t) Tty.INPCK = 0 /\
  Z.land (Tty.c_iflag t) Tty.ISTRIP = 0 /\
  Z.land (Tty.c_lflag t) Tty.ECHO = 0 /\ Z.land (Tty.c_lflag t) Tty.ICANON = 0 /\
  Z.land (Tty.c_lflag t) Tty.IEXTEN = 0 /\ Z.land (Tty.c_lflag t) Tty.ISIG = 0 /\
  Z.land (Tty.c_oflag t) Tty.OPOST = 0 /\
  Z.land (Tty.c_cflag t) Tty.CS8 = 0.
Proof.
  destruct s as [[o w] wd]; simpl.
  repeat split; apply land_clear_0; reflexivity.
Qed.

(* ------------------------------------------------------------------ *)
(** ** Input timeout *)

Lemma millis_tenths (d : Tty.Duration) :
  (Tty.as_millis d / 100 = Tty.as_nanos d / 100000000)%N.
Proof.
  unfold Tty.as_millis, Tty.as_nanos; destruct d as [s n]; simpl.
  replace (s * 1000)%N with (s * 10 * 100)%N by lia.
  replace (s * 1000000000)%N with (s * 10 * 100000000)%N by lia.
  rewrite !N.div_add_l by lia.
  rewrite N.Div0.div_div. reflexivity.
Qed.

Lemma tenths_of_clamp (d : Tty.Duration) :
  Tty.tenths_of d = Z.of_N (N.max 1 (N.min 255 (Tty.as_nanos d / 100000000))).
Proof.
  unfold Tty.tenths_of; rewrite millis_tenths.
  destruct (N.eqb_spec (Tty.as_nanos d / 100000000) 0) as [E|E];
    [rewrite E; reflexivity |].
  set (q := (Tty.as_nanos d / 100000000)%N) in *.
  destruct (N.leb_spec q 255).
  - rewrite N.min_r, N.max_r by lia; reflexivity.
  - rewrite N.min_l by lia; reflexivity.
Qed.

Lemma lookup_upd_cc (i j : nat) (v : Z) (t : Tty.termios) :
  (i < length (Tty.c_cc t))%nat ->
  Tty.c_cc (Tty.upd_cc i v t) !! j = if decide (i = j) then Some v else Tty.c_cc t !! j.
Proof.
  intros Hi; unfold Tty.upd_cc; simpl.
  destruct (decide (i = j)) as [<-|Hne].
  - apply list_lookup_insert_eq; lia.
  - apply list_lookup_insert_ne; lia.
Qed.

(** C7: [input_timeout(d)] sets VMIN to 0 and VTIME to the requested
    duration in tenths of a second, rounded down and clamped to [1, 255]:
    durations under 0.1 s give 1, durations over 25.5 s give 255, and
    durations in between give the whole number of tenths;
    [disable_input_timeout] sets VMIN to 1 and VTIME to 0. Both change only
    the working snapshot, whose [c_cc] is the [NCCS]-entry array. *)
Theorem input_timeout_clamped (d : Tty.Duration) (T : Tty.Term)
  (Hcc : length (Tty.c_cc (Tty.work T)) = Tty.NCCS) :
  let t := Tty.work (Tty.input_timeout d T) in
  let ns := Tty.as_nanos d in
  Tty.orig (Tty.input_timeout d T) = Tty.orig T /\
  Tty.c_cc t !! Tty.VMIN = Some 0 /\
  Tty.c_cc t !! Tty.VTIME = Some (Z.of_N (N.max 1 (N.min 255 (ns / 100000000)))) /\
  ((ns < 100000000)%N -> Tty.c_cc t !! Tty.VTIME = Some 1) /\
  ((25500000000 < ns)%N -> Tty.c_cc t !! Tty.VTIME = Some 255) /\
  ((100000000 <= ns <= 25500000000)%N ->
     Tty.c_cc t !! Tty.VTIME = Some (Z.of_N (ns / 100000000))) /\
  let t' := Tty.work (Tty.disable_input_timeout T) in
  Tty.orig (Tty.disable_input_timeout T) = Tty.orig T /\
  Tty.c_cc t' !! Tty.VMIN = Some 1 /\ Tty.c_cc t' !! Tty.VTIME = Some 0.
Proof.
  cbv zeta.
  unfold Tty.input_timeout, Tty.disable_input_timeout, Tty.with_termios,
    Tty.input_timeout_f, Tty.disable_input_timeout_f; cbn [Tty.work Tty.orig].
  set (t := Tty.work T) in *.
  assert (H6 : (Tty.VMIN < length (Tty.c_cc t))%nat)
    by (rewrite Hcc; unfold Tty.VMIN, Tty.NCCS; lia).
  assert (H5 : forall v, (Tty.VTIME < length (Tty.c_cc (Tty.upd_cc Tty.VMIN v t)))%nat)
    by (intros v; unfold Tty.upd_cc; cbn [Tty.c_cc];
        rewrite length_insert, Hcc; unfold Tty.VTIME, Tty.NCCS; lia).
  rewrite !(lookup_upd_cc Tty.VTIME) by auto.
  rewrite !(lookup_upd_cc Tty.VMIN) by auto.
  cbn -[Tty.tenths_of].
  rewrite tenths_of_clamp.
  set (q := (Tty.as_nanos d / 100000000)%N).
  repeat split; try reflexivity; intros Hr; do 2 f_equal.
  - assert (q = 0%N) by (apply N.div_small; lia). lia.
  - assert (255 <= q)%N.
    { apply N.div_le_lower_bound; lia. } lia.
  - assert (1 <= q)%N by (apply N.div_le_lower_bound; lia).
    assert (q <= 255)%N by (apply N.Div0.div_le_upper_bound; lia). lia.
Qed.

(* ------------------------------------------------------------------ *)
(** ** Reset restores the captured snapshot *)

Lemma set_spec (act : Tty.SetAction) (s : Sess.St) :
  let '(r, s') := Sess.set act s in
  Sess.term s' = Sess.term s /\
  last (Sess.trace (Sess.world s')) = Some (Sess.ESetAttr act (Tty.work (Sess.term s)) (is_ok r)) /\
  (r = Ok tt -> Sess.dev (Sess.world s') = Tty.work (Sess.term s)).
Proof.
  destruct s as [T [dv tty sc inp outs tr]].
  unfold Sess.set, Sess.set_termios; cbn.
  destruct sc as [|[e|] sc]; cbn; rewrite last_snoc; repeat split; congruence.
Qed.

Lemma run_ops_spec (os : list Ops.op) (s : Sess.St) :
  exists s', Ops.run_ops os s = (Ok tt, s') /\
             Tty.orig (Sess.term s') = Tty.orig (Sess.term s).
Proof.
  revert s; induction os as [|o os IH]; intros s.
  - exists s; split; reflexivity.
  - assert (Ho : exists s1, Ops.run_op o s = (Ok tt, s1) /\
                            Tty.orig (Sess.term s1) = Tty.orig (Sess.term s)).
    { destruct o; try (eexists; split; reflexivity).
      cbn. pose proof (set_spec act s) as Hs.
      unfold mbind, Sess.M_bind, Sess.catch.
      destruct (Sess.set act s) as [r s1]. destruct Hs as [Ht _].
      exists s1; split; [reflexivity | now rewrite Ht]. }
    destruct Ho as [s1 [E1 O1]].
    destruct (IH s1) as [s2 [E2 O2]].
    exists s2; split.
    + cbn. unfold mbind, Sess.M_bind. rewrite E1. exact E2.
    + congruence.
Qed.

(** The state a [reset(act)] leaves when the captured snapshot is [c]. *)
Lemma reset_after_ops (os : list Ops.op) (act : Tty.SetAction) (s : Sess.St) :
  let '(r, s') := (Ops.run_ops os;; Sess.reset act) s in
  restored (Tty.orig (Sess.term s)) act r s'.
Proof.
  destruct (run_ops_spec os s) as [s1 [E1 O1]].
  cbn. unfold mbind, Sess.M_bind. rewrite E1.
  unfold Sess.reset, Sess.modify, mbind, Sess.M_bind.
  pose proof (set_spec act (Sess.mkSt (Tty.mkTerm (Tty.orig (Sess.term s1)) (Tty.orig (Sess.term s1))) (Sess.world s1))) as Hs.
  destruct (Sess.set act _) as [r s2]; cbn in Hs.
  destruct Hs as [Ht [Hl Hd]].
  unfold restored; rewrite Ht, <- O1; cbn. auto.
Qed.

(** C5: after [new] or a successful [save] captured the device's snapshot
    [c], any sequence of mode transforms (raw, cooked, password, the
    echo, output-processing and flow-control toggles, the input timeout,
    arbitrary [with_termios] closures, with [set] commits in between)
    followed by [reset(act)] leaves original = working = [c], commits
    exactly [c] to the device with [act] as the last effect, and when that
    commit succeeds the device holds [c]. *)
Theorem reset_restores_captured (os : list Ops.op) (act : Tty.SetAction)
  (s0 s : Sess.St)
  (Hcap : (Sess.new (Sess.world s0) = Ok (Sess.term s) /\ Sess.world s = Sess.world s0)
          \/ Sess.save s0 = (Ok tt, s)) :
  let '(r, s') := (Ops.run_ops os;; Sess.reset act) s in
  restored (Sess.dev (Sess.world s0)) act r s'.
Proof.
  assert (Ho : Tty.orig (Sess.term s) = Sess.dev (Sess.world s0)).
  { destruct Hcap as [[Hn _] | Hs].
    - unfold Sess.new, Sess.get_termios in Hn.
      destruct (Sess.is_tty (Sess.world s0)); [|discriminate].
      injection Hn as <-; reflexivity.
    - unfold Sess.save, Sess.get_termios in Hs.
      destruct (Sess.is_tty (Sess.world s0)); [|discriminate].
      injection Hs as <-; reflexivity. }
  rewrite <- Ho. apply reset_after_ops.
Qed.

(* ------------------------------------------------------------------ *)
(** ** Zeroization on drop *)

Lemma fill_from_spec (i : nat) (b : list byte) :
  Pw.fill_from i b = (repeat x00 (length b), map (fun j => Pw.EStore j x00) (seq i (length b))).
Proof.
  revert i; induction b as [|x b IH]; intros i; [reflexivity |].
  cbn. rewrite IH. reflexivity.
Qed.

(** C2: dropping a [Password] stores zero at each of the 512 indices in
    order, then issues the compiler fence, then the hardware fence, and
    only then releases the memory, whose 512 bytes are all zero. *)
Theorem drop_zeroizes (p : Pw.Password) (Hlen : length (Pw.buf p) = Pw.PASSWORD_BUFFER_LEN) :
  let '(mem, ev) := Pw.drop p in
  length mem = Pw.PASSWORD_BUFFER_LEN /\ Forall (fun b => b = x00) mem /\
  ev = map (fun j => Pw.EStore j x00) (seq 0 Pw.PASSWORD_BUFFER_LEN)
       ++ [Pw.ECompilerFence; Pw.EFence; Pw.EDealloc].
Proof.
  unfold Pw.drop. rewrite fill_from_spec, Hlen.
  split; [apply repeat_length |]. split; [|reflexivity].
  apply Forall_forall. intros x Hx. apply list_elem_of_In, repeat_spec in Hx. exact Hx.
Qed.

(* ------------------------------------------------------------------ *)
(** ** The mutable slice covers the terminator *)

Lemma until_nul_none (l : list byte) :
  Forall (fun b => b <> x00) l -> Pw.from_bytes_until_nul l = None.
Proof.
  induction 1 as [|b l Hb _ IH]; [reflexivity |].
  cbn. destruct (Byte.eqb b x00) eqn:E.
  - apply byte_eqb_iff in E; contradiction.
  - rewrite IH; reflexivity.
Qed.

(** C9: [as_mut_slice] hands out all 512 bytes, the last one included;
    writing 512 non-zero bytes through it leaves no nul, and [as_cstr],
    [as_str] and [as_bytes] then panic. *)
Theorem as_mut_slice_whole_buffer (p : Pw.Password) (data : list byte)
  (Hp : length (Pw.buf p) = Pw.PASSWORD_BUFFER_LEN)
  (Hd : length data = Pw.PASSWORD_BUFFER_LEN)
  (Hnz : Forall (fun b => b <> x00) data) :
  Pw.as_mut_slice p = Pw.mkSlice 0 Pw.PASSWORD_BUFFER_LEN /\
  let p' := Pw.write_slice (Pw.as_mut_slice p) data p in
  Pw.buf p' = data /\ Pw.as_cstr p' = None /\ Pw.as_str p' = None /\
  Pw.as_bytes p' = None.
Proof.
  unfold Pw.as_mut_slice. rewrite Hp. split; [reflexivity |].
  cbv zeta. unfold Pw.write_slice; cbn [Pw.off Pw.len Pw.buf].
  rewrite take_0, drop_ge by (rewrite Hp; lia). rewrite app_nil_r. cbn.
  unfold Pw.as_bytes, Pw.as_str, Pw.as_cstr; cbn.
  rewrite until_nul_none by exact Hnz. auto.
Qed.

(* ------------------------------------------------------------------ *)
(** ** The [read_line] loop *)

Section ReadLine.

Lemma drop_repeat {A} (x : A) (m n : nat) : drop n (repeat x m) = repeat x (m - n).
Proof.
  revert m; induction n as [|n IH]; intros m; [now rewrite Nat.sub_0_r |].
  destruct m; [reflexivity |]. cbn. apply IH.
Qed.

Lemma copy_at_pad (pre ch : list byte) (m : nat) :
  Pw.copy_at (length pre) ch (pre ++ repeat x00 m) = pre ++ ch ++ repeat x00 (m - length ch).
Proof.
  unfold Pw.copy_at. rewrite take_app_length, drop_app_add, drop_repeat. reflexivity.
Qed.

Lemma byte_is_last (pre c R : list byte) (v : byte) :
  c <> [] ->
  Pw.byte_is (pre ++ c ++ R) (length pre + length c - 1) v =
  match c !! (length c - 1)%nat with Some x => Byte.eqb x v | None => false end.
Proof.
  intros Hc. assert (0 < length c)%nat by (destruct c; [done | cbn; lia]).
  unfold Pw.byte_is. replace (length pre + length c - 1)%nat with (length pre + (length c - 1))%nat by lia.
  rewrite lookup_app_r by lia. rewrite Nat.add_comm, Nat.add_sub.
  rewrite lookup_app_l by lia. reflexivity.
Qed.

Lemma reader_read_fits (cap : nat) (c : list byte) (r : Reader) :
  (length c <= cap)%nat -> reader_read cap (RData c :: r) = (Ok c, r).
Proof.
  intros H. unfold reader_read. rewrite drop_ge, take_ge by exact H. reflexivity.
Qed.

(** A read that brings a chunk not ending in a newline, with room left
    afterwards, only advances [index]. *)
Lemma loop_step (f : nat) (pre c : list byte) (r : Reader) :
  c <> [] -> (length pre + length c < 511)%nat ->
  c !! (length c - 1)%nat <> Some x0a ->
  Pw.read_line_loop (S f) (length pre) (pre ++ repeat x00 (512 - length pre)) (RData c :: r) =
  Pw.read_line_loop f (length (pre ++ c)) ((pre ++ c) ++ repeat x00 (512 - length (pre ++ c))) r.
Proof.
  intros Hc Hlen Hnl.
  assert (0 < length c)%nat by (destruct c; [done | cbn; lia]).
  cbn [Pw.read_line_loop]. unfold Pw.PASSWORD_BUFFER_LEN.
  rewrite reader_read_fits by lia.
  rewrite copy_at_pad, byte_is_last by exact Hc.
  destruct (Nat.eqb_spec (length c) 0); [lia |].
  destruct (c !! (length c - 1)%nat) as [x|] eqn:Ex.
  - destruct (Byte.eqb x x0a) eqn:Eb; [apply byte_eqb_iff in Eb; congruence |].
    destruct (Nat.leb_spec (512 - 1) (length pre + length c)); [lia |].
    rewrite length_app, <- app_assoc, Nat.sub_add_distr. reflexivity.
  - destruct (Nat.leb_spec (512 - 1) (length pre + length c)); [lia |].
    rewrite length_app, <- app_assoc, Nat.sub_add_distr. reflexivity.
Qed.

(** A read whose chunk ends in a newline: the newline becomes the nul and
    the loop stops. *)
Lemma loop_newline (f : nat) (pre l : list byte) (r : Reader) :
  (length pre + length l < 511)%nat ->
  Pw.read_line_loop (S f) (length pre) (pre ++ repeat x00 (512 - length pre)) (RData (l ++ [x0a]) :: r) =
  (Ok tt, pre ++ l ++ x00 :: repeat x00 (511 - length pre - length l), r).
Proof.
  intros Hlen.
  cbn [Pw.read_line_loop]. unfold Pw.PASSWORD_BUFFER_LEN.
  rewrite reader_read_fits by (rewrite length_app; cbn; lia).
  rewrite copy_at_pad, byte_is_last by (destruct l; discriminate).
  rewrite length_app; cbn [length].
  destruct (Nat.eqb_spec (length l + 1) 0); [lia |].
  replace (length l + 1 - 1)%nat with (length l) by lia.
  rewrite lookup_app_r, Nat.sub_diag by lia. cbn.
  replace (length pre + (length l + 1) - 1)%nat with (length pre + length l)%nat by lia.
  rewrite <- app_assoc. cbn.
  rewrite insert_app_r, insert_app_r_alt by lia. rewrite Nat.sub_diag. cbn.
  replace (512 - length pre - (length l + 1))%nat with (511 - length pre - length l)%nat by lia.
  reflexivity.
Qed.

Lemma reader_read_take (cap : nat) (c : list byte) (r : Reader) :
  exists r', reader_read cap (RData c :: r) = (Ok (take cap c), r').
Proof. unfold reader_read. destruct (drop cap c); eexists; reflexivity. Qed.

(** A read that fills the last free byte before the terminator slot: the
    loop stops with [Ok], whatever the rest of the input. *)
Lemma loop_full (f : nat) (pre c : list byte) (r : Reader) :
  (length pre < 511)%nat -> (511 <= length pre + length c)%nat ->
  c !! (511 - length pre - 1)%nat <> Some x0a ->
  exists r', Pw.read_line_loop (S f) (length pre) (pre ++ repeat x00 (512 - length pre)) (RData c :: r) =
             (Ok tt, pre ++ take (511 - length pre) c ++ [x00], r').
Proof.
  intros H1 H2 Hnl.
  set (k := (511 - length pre)%nat) in *.
  destruct (reader_read_take (512 - 1 - length pre) c r) as [r' E].
  exists r'. cbn [Pw.read_line_loop]. unfold Pw.PASSWORD_BUFFER_LEN. rewrite E.
  replace (512 - 1 - length pre)%nat with k by (unfold k; lia).
  assert (Hk : length (take k c) = k) by (apply length_take_le; unfold k; lia).
  assert (Htk : take k c <> []) by (intros He; rewrite He in Hk; cbn in Hk; unfold k in Hk; lia).
  rewrite copy_at_pad, byte_is_last by exact Htk. rewrite Hk.
  destruct (Nat.eqb_spec k 0); [unfold k in *; lia |].
  rewrite lookup_take_lt by lia.
  destruct (c !! (k - 1)%nat) as [x|] eqn:Ex.
  - destruct (Byte.eqb x x0a) eqn:Eb; [apply byte_eqb_iff in Eb; congruence |].
    destruct (Nat.leb_spec (512 - 1) (length pre + k)); [| unfold k in *; lia].
    replace (512 - length pre - k)%nat with 1%nat by (unfold k; lia). reflexivity.
  - destruct (Nat.leb_spec (512 - 1) (length pre + k)); [| unfold k in *; lia].
    replace (512 - length pre - k)%nat with 1%nat by (unfold k; lia). reflexivity.
Qed.

Lemma lookup_last_in_take (c X : list byte) (k : nat) :
  c <> [] -> (length c <= k)%nat -> forall x, c !! (length c - 1)%nat = Some x -> x ∈ take k (c ++ X).
Proof.
  intros Hc Hk x Hx.
  assert (0 < length c)%nat by (destruct c; [done | cbn; lia]).
  apply list_elem_of_lookup_2 with (length c - 1)%nat.
  rewrite lookup_take_lt by lia. rewrite lookup_app_l by lia. exact Hx.
Qed.

(** Input of at least 511 bytes, split into any non-empty reads, with no
    newline among the first 511 bytes: the loop stores those 511 bytes,
    keeps the nul after them and returns [Ok]. *)
Lemma loop_overflow (cs : list (list byte)) :
  forall (f : nat) (pre : list byte) (r : Reader),
  Forall (fun c => c <> []) cs ->
  (length pre < 511)%nat -> (511 - length pre <= f)%nat ->
  (511 <= length pre + length (concat cs))%nat ->
  x0a ∉ take (511 - length pre) (concat cs) ->
  exists r', Pw.read_line_loop f (length pre) (pre ++ repeat x00 (512 - length pre)) (map RData cs ++ r) =
             (Ok tt, pre ++ take (511 - length pre) (concat cs) ++ [x00], r').
Proof.
  induction cs as [|c cs IH]; intros f pre r Hne Hpre Hf Hlen Hnl.
  - cbn in Hlen. lia.
  - inversion Hne as [|? ? Hc Hne']; subst.
    assert (Hc0 : (0 < length c)%nat) by (destruct c; [done | cbn; lia]).
    destruct f as [|f]; [lia |].
    cbn [concat map app] in *.
    destruct (Nat.leb_spec 511 (length pre + length c)) as [Hbig|Hsmall].
    + rewrite take_app_le in Hnl |- * by lia.
      apply loop_full; [lia | lia |].
      intros Hx. apply Hnl. apply list_elem_of_lookup_2 with (511 - length pre - 1)%nat.
      rewrite lookup_take_lt by lia. exact Hx.
    + rewrite loop_step; [| exact Hc | lia |].
      * assert (Hnl' : x0a ∉ take (511 - length (pre ++ c)) (concat cs)).
        { intros Hx. apply Hnl. rewrite take_app, take_ge by lia.
          apply elem_of_app; right.
          rewrite length_app in Hx.
          replace (511 - length pre - length c)%nat with (511 - (length pre + length c))%nat by lia.
          exact Hx. }
        destruct (IH f (pre ++ c) r Hne') as [r' E];
          [rewrite length_app; lia | rewrite length_app; lia
          | rewrite length_app; rewrite length_app in Hlen; lia | exact Hnl' |].
        exists r'. rewrite E. rewrite length_app, <- !app_assoc, take_app, (take_ge c) by lia.
        replace (511 - (length pre + length c))%nat with (511 - length pre - length c)%nat by lia.
        rewrite <- app_assoc. reflexivity.
      * intros Hx. apply Hnl. apply (lookup_last_in_take c); auto; lia.
Qed.

Lemma last_not_nl (c : list byte) :
  last c <> Some x0a -> c !! (length c - 1)%nat <> Some x0a.
Proof. rewrite last_lookup, <- Nat.sub_1_r. exact id. Qed.

(** Reads that do not end in a newline (a newline inside them is kept),
    then a read ending in a newline: the loop stores everything before
    that last newline, puts the nul in its place and leaves the rest of
    the input unread. *)
Lemma loop_line_gen (cs : list (list byte)) :
  forall (f : nat) (pre m : list byte) (r : Reader),
  Forall (fun c => c <> [] /\ last c <> Some x0a) cs ->
  (length pre + length (concat cs ++ m) < 511)%nat -> (511 - length pre <= f)%nat ->
  Pw.read_line_loop f (length pre) (pre ++ repeat x00 (512 - length pre))
    (map RData (cs ++ [m ++ [x0a]]) ++ r) =
  (Ok tt, pre ++ (concat cs ++ m) ++ x00 :: repeat x00 (511 - length pre - length (concat cs ++ m)), r).
Proof.
  induction cs as [|c cs IH]; intros f pre m r Hcs Hlen Hf.
  - destruct f as [|f]; [cbn in Hlen; lia |].
    cbn [concat app map]. cbn [app] in Hlen. apply loop_newline. exact Hlen.
  - inversion Hcs as [|? ? [Hc Hl] Hcs']; subst.
    assert (Hc0 : (0 < length c)%nat) by (destruct c; [done | cbn; lia]).
    destruct f as [|f]; [lia |].
    cbn [concat] in *. rewrite !length_app in Hlen.
    change (map RData ((c :: cs) ++ [m ++ [x0a]]) ++ r)
      with (RData c :: (map RData (cs ++ [m ++ [x0a]]) ++ r)).
    rewrite loop_step; [| exact Hc | lia | apply last_not_nl, Hl].
    rewrite IH; [| exact Hcs' | rewrite !length_app; lia | rewrite length_app; lia].
    rewrite !length_app, <- !app_assoc.
    replace (511 - (length pre + length c) - (length (concat cs) + length m))%nat
      with (511 - length pre - (length c + length (concat cs) + length m))%nat by lia.
    reflexivity.
Qed.

(** Reads that do not end in a newline and end before the buffer is
    full: the loop stores all of it and stops on the 0-byte read. *)
Lemma loop_eof_gen (cs : list (list byte)) :
  forall (f : nat) (pre : list byte),
  Forall (fun c => c <> [] /\ last c <> Some x0a) cs ->
  (length pre + length (concat cs) < 511)%nat -> (511 - length pre <= f)%nat ->
  Pw.read_line_loop f (length pre) (pre ++ repeat x00 (512 - length pre)) (map RData cs) =
  (Ok tt, pre ++ concat cs ++ repeat x00 (512 - length pre - length (concat cs)), []).
Proof.
  induction cs as [|c cs IH]; intros f pre Hcs Hlen Hf.
  - destruct f as [|f]; [cbn in Hlen; lia |].
    cbn [Pw.read_line_loop map concat reader_read length].
    change (0 =? 0)%nat with true. cbv iota.
    change (length ([] : list byte)) with 0%nat.
    rewrite copy_at_pad. cbn [length app]. rewrite !Nat.sub_0_r. reflexivity.
  - inversion Hcs as [|? ? [Hc Hl] Hcs']; subst.
    assert (Hc0 : (0 < length c)%nat) by (destruct c; [done | cbn; lia]).
    destruct f as [|f]; [lia |].
    cbn [concat] in *. rewrite length_app in Hlen.
    change (map RData (c :: cs)) with (RData c :: map RData cs).
    rewrite loop_step; [| exact Hc | lia | apply last_not_nl, Hl].
    rewrite IH; [| exact Hcs' | rewrite length_app; lia | rewrite length_app; lia].
    rewrite !length_app, <- !app_assoc, !Nat.sub_add_distr. reflexivity.
Qed.

(** Reads that do not end in a newline, then a read that reaches the
    last free byte before the terminator slot, that byte not being a
    newline: the loop stores the first 511 bytes (newlines inside them
    kept) and returns [Ok]. *)
Lemma loop_overflow_gen (cs : list (list byte)) :
  forall (f : nat) (pre c : list byte) (r : Reader),
  Forall (fun c => c <> [] /\ last c <> Some x0a) cs ->
  (length pre + length (concat cs) < 511)%nat ->
  (511 <= length pre + length (concat cs ++ c))%nat ->
  (concat cs ++ c) !! (511 - length pre - 1)%nat <> Some x0a ->
  (511 - length pre <= f)%nat ->
  exists r', Pw.read_line_loop f (length pre) (pre ++ repeat x00 (512 - length pre))
               (map RData (cs ++ [c]) ++ r) =
             (Ok tt, pre ++ take (511 - length pre) (concat cs ++ c) ++ [x00], r').
Proof.
  induction cs as [|c0 cs IH]; intros f pre c r Hcs Hlen Hbig Hnl Hf.
  - destruct f as [|f]; [cbn in Hlen; lia |].
    cbn [concat app map] in *. apply loop_full; [lia | lia | exact Hnl].
  - inversion Hcs as [|? ? [Hc Hl] Hcs']; subst.
    assert (Hc0 : (0 < length c0)%nat) by (destruct c0; [done | cbn; lia]).
    destruct f as [|f]; [lia |].
    cbn [concat] in *. rewrite !length_app in Hlen, Hbig. rewrite ?length_app in Hbig.
    change (map RData ((c0 :: cs) ++ [c]) ++ r) with (RData c0 :: (map RData (cs ++ [c]) ++ r)).
    rewrite loop_step; [| exact Hc | lia | apply last_not_nl, Hl].
    rewrite <- app_assoc in Hnl.
    rewrite lookup_app_r in Hnl by lia.
    destruct (IH f (pre ++ c0) c r Hcs') as [r' E];
      [rewrite length_app; lia | rewrite !length_app; lia
      | rewrite length_app; replace (511 - (length pre + length c0) - 1)%nat
          with (511 - length pre - 1 - length c0)%nat by lia; exact Hnl
      | rewrite length_app; lia |].
    exists r'. rewrite E. rewrite length_app, <- !app_assoc.
    rewrite (take_app c0), (take_ge c0) by lia.
    replace (511 - (length pre + length c0))%nat with (511 - length pre - length c0)%nat by lia.
    rewrite <- app_assoc. reflexivity.
Qed.

Lemma until_nul_prefix (l R : list byte) :
  x00 ∉ l -> Pw.from_bytes_until_nul (l ++ x00 :: R) = Some l.
Proof.
  induction l as [|b l IH]; intros Hn; [reflexivity |].
  cbn. destruct (Byte.eqb b x00) eqn:E.
  - apply byte_eqb_iff in E; subst. exfalso; apply Hn; left.
  - rewrite IH; [reflexivity | intros Hx; apply Hn; right; exact Hx].
Qed.
End ReadLine.

(* ------------------------------------------------------------------ *)
(** ** The keystroke bracket *)

Ltac close_bracket :=
  rewrite <- ?app_assoc; cbn; repeat split; auto; try discriminate; eauto.

(** C4 (as the code does it): [keystroke] first commits raw mode with
    TCSAFLUSH; if that commit fails its error is returned and nothing else
    happens. Otherwise exactly one 4-byte read follows, then the revert
    (working := original, committed with TCSANOW) is attempted whatever the
    read returned; when the revert succeeds the device is back to the
    original and the read's result is returned, when it fails the revert's
    error (the next outcome of tcsetattr after the successful commit) is
    returned instead. *)
Theorem keystroke_bracket (s : Sess.St) :
  let T := Sess.term s in
  let w := Sess.world s in
  let '(r, s') := Sess.keystroke s in
  (exists e, head (Sess.set_script w) = Some (Some e) /\ r = Err e /\
     Sess.trace (Sess.world s') = Sess.trace w ++ [Sess.ESetAttr Tty.TCSAFLUSH (Tty.raw_f (Tty.work T)) false] /\
     Sess.dev (Sess.world s') = Sess.dev w /\ Sess.input (Sess.world s') = Sess.input w)
  \/
  (exists ok, Sess.trace (Sess.world s') = Sess.trace w ++
       [Sess.ESetAttr Tty.TCSAFLUSH (Tty.raw_f (Tty.work T)) true; Sess.ERead 4;
        Sess.ESetAttr Tty.TCSANOW (Tty.orig T) ok] /\
     Sess.term s' = Tty.mkTerm (Tty.orig T) (Tty.orig T) /\
     Sess.input (Sess.world s') = snd (reader_read 4 (Sess.input w)) /\
     (ok = true -> Sess.dev (Sess.world s') = Tty.orig T /\ r = key_of (fst (reader_read 4 (Sess.input w)))) /\
     (ok = false -> exists e, head (tail (Sess.set_script w)) = Some (Some e) /\ r = Err e)).
Proof.
  destruct s as [[o wk] [dv tty sc inp outs tr]]; cbn zeta.
  unfold Sess.keystroke, Sess.get_raw_keystroke, Sess.reset, Sess.set, Sess.set_termios,
    Sess.modify, Sess.catch, Sess.lift, Sess.read, Sess.log, mbind, mret, Sess.M_bind, Sess.M_ret.
  cbn.
  destruct sc as [|[e|] sc]; cbn;
    try (left; exists e; repeat split; reflexivity);
    destruct (reader_read 4 inp) as [[ch|e1] inp'] eqn:E; cbn;
    try (destruct sc as [|[e2|] sc]); cbn; right;
    first [exists true; solve [close_bracket] | exists false; solve [close_bracket]].
Qed.

(** C4 against the claim: the read returns the byte 'a', the revert then
    fails, and [keystroke] returns the revert's error, not the read's
    keystroke. *)
Lemma keystroke_revert_error_replaces_read :
  let s := Sample.state0 [None; Some (OsError 5)] [RData [x61]] in
  fst (reader_read 4 [RData [x61]]) = Ok [x61] /\
  fst (Sess.keystroke s) = Err (OsError 5) /\
  fst (Sess.keystroke s) <> key_of (fst (reader_read 4 [RData [x61]])).
Proof. vm_compute. split; [reflexivity | split; [reflexivity | discriminate]]. Qed.

(* ------------------------------------------------------------------ *)
(** ** prompt_for_password *)

(** C1, evaluated: on a terminal where password mode is committed and
    the prompt is written and flushed, but the read of the line fails,
    [prompt_for_password] returns the read error without attempting the
    revert: no second tcsetattr happens and the device stays in password
    mode. *)
Theorem prompt_for_password_read_error_skips_revert :
  let s := Sample.state0 [] [RFail (IoError 5)] in
  let '(r, s') := Sess.prompt_for_password Sample.hello s in
  r = Err (IoError 5) /\
  Sess.trace (Sess.world s') =
    [Sess.ESetAttr Tty.TCSAFLUSH (Tty.password_f Sample.termios0) true;
     Sess.EWrite (Sample.hello ++ [x3a; x20]) true; Sess.EFlush true] /\
  Sess.dev (Sess.world s') = Tty.password_f Sample.termios0 /\
  Tty.password_f Sample.termios0 <> Sample.termios0.
Proof.
  vm_compute. split; [reflexivity | split; [reflexivity | split; [reflexivity | discriminate]]].
Qed.

(* ------------------------------------------------------------------ *)
(** ** read_line on long input *)

(** C3 against the claim: 600 bytes without a newline, delivered in one
    read, make [read_line] return [Ok], not [InvalidData]. *)
Lemma read_line_long_input_ok :
  fst (fst (Pw.read_line Pw.new [RData (repeat x61 600)])) = Ok tt /\
  fst (fst (Pw.read_line Pw.new [RData (repeat x61 600)])) <> Err InvalidData.
Proof. vm_compute. split; [reflexivity | discriminate]. Qed.

Lemma read_line_new (fd : Reader) :
  Pw.read_line Pw.new fd =
  let '(r, b, fd') := Pw.read_line_loop Pw.PASSWORD_BUFFER_LEN (length ([] : list byte))
                        ([] ++ repeat x00 (512 - length ([] : list byte))) fd in
  (r, Pw.mkPassword b, fd').
Proof. reflexivity. Qed.

(** C3 (as the code does it): input of at least 511 bytes, in any split
    into non-empty reads, with no newline among the first 511 bytes, makes
    [read_line] return [Ok] with exactly those 511 bytes stored and the
    last buffer byte left nul: the secret is silently truncated. *)
Theorem read_line_truncates_long_input (cs : list (list byte)) (rest : Reader)
  (Hne : Forall (fun c => c <> []) cs)
  (Hlen : (511 <= length (concat cs))%nat)
  (Hnl : x0a ∉ take 511 (concat cs)) :
  exists fd', Pw.read_line Pw.new (map RData cs ++ rest) =
              (Ok tt, Pw.mkPassword (take 511 (concat cs) ++ [x00]), fd').
Proof.
  destruct (loop_overflow cs Pw.PASSWORD_BUFFER_LEN [] rest Hne) as [fd' E];
    [unfold Pw.PASSWORD_BUFFER_LEN; cbn; lia | unfold Pw.PASSWORD_BUFFER_LEN; cbn; lia | unfold Pw.PASSWORD_BUFFER_LEN; cbn; lia | exact Hnl |].
  exists fd'. rewrite read_line_new, E. reflexivity.
Qed.

(* ------------------------------------------------------------------ *)
(** ** read_line on a line *)

(** C6 against the claim: a read that delivers "hello\nworld" at once does
    not stop [read_line] at the newline: the newline stays in the buffer
    and "world" is consumed and stored as part of the secret. *)
Lemma read_line_inner_newline_kept :
  let '(r, p, fd) := Pw.read_line Pw.new [RData (Sample.hello ++ [x0a] ++ Sample.world_)] in
  r = Ok tt /\ Pw.as_bytes p = Some (Sample.hello ++ [x0a] ++ Sample.world_) /\ fd = [].
Proof. vm_compute. split; [reflexivity | split; reflexivity]. Qed.

(** C6 (as the code does it): [read_line] stops when a read ends with a
    newline, when a read returns 0 bytes, or when 511 bytes are stored; a
    newline anywhere else in a read is stored like any other byte.  For
    non-empty reads [cs] none of which ends with a newline, then a read
    [m ++ "\n"], then anything, with fewer than 511 bytes before that
    final newline: the loop stops after that read, the final newline is
    overwritten in place by the nul, the secret is [concat cs ++ m] (inner
    newlines included) and the input after it is left unread.  When the
    input ends after [cs] (under 511 bytes) it is stored whole.  When a read
    [c] after [cs] reaches 511 bytes, the first 511 bytes are stored, unless
    the 511th is a newline. *)
Theorem read_line_line_end :
  (forall (cs : list (list byte)) (m : list byte) (rest : Reader),
     Forall (fun c => c <> [] /\ last c <> Some x0a) cs ->
     (length (concat cs ++ m) < 511)%nat ->
     Pw.read_line Pw.new (map RData (cs ++ [m ++ [x0a]]) ++ rest) =
       (Ok tt, Pw.mkPassword ((concat cs ++ m) ++ x00 :: repeat x00 (511 - length (concat cs ++ m))),
        rest) /\
     (x00 ∉ concat cs ++ m ->
      Pw.as_bytes (Pw.mkPassword ((concat cs ++ m) ++ x00 :: repeat x00 (511 - length (concat cs ++ m))))
      = Some (concat cs ++ m))) /\
  (forall (cs : list (list byte)),
     Forall (fun c => c <> [] /\ last c <> Some x0a) cs ->
     (length (concat cs) < 511)%nat ->
     Pw.read_line Pw.new (map RData cs) =
       (Ok tt, Pw.mkPassword (concat cs ++ repeat x00 (512 - length (concat cs))), [])) /\
  (forall (cs : list (list byte)) (c : list byte) (rest : Reader),
     Forall (fun c => c <> [] /\ last c <> Some x0a) cs ->
     (length (concat cs) < 511)%nat -> (511 <= length (concat cs ++ c))%nat ->
     (concat cs ++ c) !! 510%nat <> Some x0a ->
     exists fd', Pw.read_line Pw.new (map RData (cs ++ [c]) ++ rest) =
                 (Ok tt, Pw.mkPassword (take 511 (concat cs ++ c) ++ [x00]), fd')).
Proof.
  split; [| split].
  - intros cs m rest Hcs Hlen. split.
    + rewrite read_line_new, (loop_line_gen cs Pw.PASSWORD_BUFFER_LEN [] m rest Hcs);
        [reflexivity | cbn; lia | unfold Pw.PASSWORD_BUFFER_LEN; cbn; lia].
    + intros H0. unfold Pw.as_bytes, Pw.as_cstr; cbn [Pw.buf].
      apply until_nul_prefix; exact H0.
  - intros cs Hcs Hlen.
    rewrite read_line_new, (loop_eof_gen cs Pw.PASSWORD_BUFFER_LEN [] Hcs);
      [reflexivity | cbn; lia | unfold Pw.PASSWORD_BUFFER_LEN; cbn; lia].
  - intros cs c rest Hcs Hlen Hbig Hnl.
    destruct (loop_overflow_gen cs Pw.PASSWORD_BUFFER_LEN [] c rest Hcs) as [fd' E];
      [cbn; lia | cbn; lia | exact Hnl | unfold Pw.PASSWORD_BUFFER_LEN; cbn; lia |].
    exists fd'. rewrite read_line_new, E. reflexivity.
Qed.

(* ------------------------------------------------------------------ *)
(** ** Instances of the conditional theorems *)

(** [input_timeout_clamped] on the sample terminal with 1.5 s. *)
Lemma input_timeout_clamped_witness :
  length (Tty.c_cc (Tty.work (Tty.mkTerm Sample.termios0 Sample.termios0))) = Tty.NCCS /\
  let T := Tty.mkTerm Sample.termios0 Sample.termios0 in
  let d := Tty.mkDuration 1 500000000 in
  let t := Tty.work (Tty.input_timeout d T) in
  let ns := Tty.as_nanos d in
  Tty.orig (Tty.input_timeout d T) = Tty.orig T /\
  Tty.c_cc t !! Tty.VMIN = Some 0 /\
  Tty.c_cc t !! Tty.VTIME = Some (Z.of_N (N.max 1 (N.min 255 (ns / 100000000)))) /\
  ((ns < 100000000)%N -> Tty.c_cc t !! Tty.VTIME = Some 1) /\
  ((25500000000 < ns)%N -> Tty.c_cc t !! Tty.VTIME = Some 255) /\
  ((100000000 <= ns <= 25500000000)%N ->
     Tty.c_cc t !! Tty.VTIME = Some (Z.of_N (ns / 100000000))) /\
  let t' := Tty.work (Tty.disable_input_timeout T) in
  Tty.orig (Tty.disable_input_timeout T) = Tty.orig T /\
  Tty.c_cc t' !! Tty.VMIN = Some 1 /\ Tty.c_cc t' !! Tty.VTIME = Some 0.
Proof.
  split; [reflexivity |].
  apply (input_timeout_clamped (Tty.mkDuration 1 500000000)
           (Tty.mkTerm Sample.termios0 Sample.termios0)).
  reflexivity.
Defined.

(** [reset_restores_captured] after raw mode, a commit and a timeout,
    with the revert failing on the device. *)
Lemma reset_restores_captured_witness :
  let s0 := Sample.state0 [None; Some (OsError 5)] [] in
  ((Sess.new (Sess.world s0) = Ok (Sess.term s0) /\ Sess.world s0 = Sess.world s0)
   \/ Sess.save s0 = (Ok tt, s0)) /\
  let '(r, s') := (Ops.run_ops [Ops.ORaw; Ops.OSet Tty.TCSAFLUSH;
                                Ops.OTimeout (Tty.mkDuration 2 0)];;
                   Sess.reset Tty.TCSANOW) s0 in
  restored (Sess.dev (Sess.world s0)) Tty.TCSANOW r s'.
Proof.
  split; [left; split; reflexivity |].
  apply (reset_restores_captured
           [Ops.ORaw; Ops.OSet Tty.TCSAFLUSH; Ops.OTimeout (Tty.mkDuration 2 0)]
           Tty.TCSANOW (Sample.state0 [None; Some (OsError 5)] [])
           (Sample.state0 [None; Some (OsError 5)] [])).
  left; split; reflexivity.
Defined.

(** [drop_zeroizes] on a password holding the secret "hello". *)
Lemma drop_zeroizes_witness :
  length (Pw.buf (Pw.mkPassword (Sample.hello ++ repeat x00 507))) = Pw.PASSWORD_BUFFER_LEN /\
  Pw.buf (Pw.mkPassword (Sample.hello ++ repeat x00 507)) !! 0%nat = Some x68 /\
  let '(mem, ev) := Pw.drop (Pw.mkPassword (Sample.hello ++ repeat x00 507)) in
  length mem = Pw.PASSWORD_BUFFER_LEN /\ Forall (fun b => b = x00) mem /\
  ev = map (fun j => Pw.EStore j x00) (seq 0 Pw.PASSWORD_BUFFER_LEN)
       ++ [Pw.ECompilerFence; Pw.EFence; Pw.EDealloc].
Proof.
  split; [reflexivity | split; [reflexivity |]].
  apply (drop_zeroizes (Pw.mkPassword (Sample.hello ++ repeat x00 507))). reflexivity.
Defined.

(** [as_mut_slice_whole_buffer] writing 512 bytes 'a' into a fresh
    password. *)
Lemma as_mut_slice_whole_buffer_witness :
  length (Pw.buf Pw.new) = Pw.PASSWORD_BUFFER_LEN /\
  length (repeat x61 512) = Pw.PASSWORD_BUFFER_LEN /\
  Forall (fun b => b <> x00) (repeat x61 512) /\
  Pw.as_mut_slice Pw.new = Pw.mkSlice 0 Pw.PASSWORD_BUFFER_LEN /\
  let p' := Pw.write_slice (Pw.as_mut_slice Pw.new) (repeat x61 512) Pw.new in
  Pw.buf p' = repeat x61 512 /\ Pw.as_cstr p' = None /\ Pw.as_str p' = None /\
  Pw.as_bytes p' = None.
Proof.
  split; [reflexivity | split; [reflexivity | split; [apply (bool_decide_unpack _); vm_compute; reflexivity |]]].
  apply (as_mut_slice_whole_buffer Pw.new (repeat x61 512));
    [reflexivity | reflexivity | apply (bool_decide_unpack _); vm_compute; reflexivity].
Defined.

(** [read_line_truncates_long_input] on 600 bytes 'a' in two reads. *)
Lemma read_line_truncates_long_input_witness :
  Forall (fun c => c <> []) [repeat x61 300; repeat x61 300] /\
  (511 <= length (concat [repeat x61 300; repeat x61 300]))%nat /\
  (x0a ∉ take 511 (concat [repeat x61 300; repeat x61 300])) /\
  exists fd', Pw.read_line Pw.new (map RData [repeat x61 300; repeat x61 300] ++ []) =
              (Ok tt, Pw.mkPassword (take 511 (concat [repeat x61 300; repeat x61 300]) ++ [x00]), fd').
Proof.
  split; [apply (bool_decide_unpack _); vm_compute; reflexivity | split; [vm_compute; lia | split; [apply (bool_decide_unpack _); vm_compute; reflexivity |]]].
  apply (read_line_truncates_long_input [repeat x61 300; repeat x61 300] []);
    [apply (bool_decide_unpack _); vm_compute; reflexivity | vm_compute; lia | apply (bool_decide_unpack _); vm_compute; reflexivity].
Defined.

(** [read_line_line_end] on "hel" and "lo\n" in two reads, followed by
    "world". *)
Lemma read_line_line_end_witness :
  Forall (fun c => c <> [] /\ last c <> Some x0a) [[x68; x65; x6c]] /\
  (length (concat [[x68; x65; x6c]] ++ [x6c; x6f]) < 511)%nat /\
  Pw.read_line Pw.new (map RData ([[x68; x65; x6c]] ++ [[x6c; x6f] ++ [x0a]]) ++ [RData Sample.world_]) =
    (Ok tt, Pw.mkPassword ((concat [[x68; x65; x6c]] ++ [x6c; x6f]) ++
                           x00 :: repeat x00 (511 - length (concat [[x68; x65; x6c]] ++ [x6c; x6f]))),
     [RData Sample.world_]) /\
  (x00 ∉ concat [[x68; x65; x6c]] ++ [x6c; x6f] ->
   Pw.as_bytes (Pw.mkPassword ((concat [[x68; x65; x6c]] ++ [x6c; x6f]) ++
                               x00 :: repeat x00 (511 - length (concat [[x68; x65; x6c]] ++ [x6c; x6f]))))
   = Some (concat [[x68; x65; x6c]] ++ [x6c; x6f])).
Proof.
  split; [apply (bool_decide_unpack _); vm_compute; reflexivity | split; [vm_compute; lia |]].
  apply (proj1 read_line_line_end [[x68; x65; x6c]] [x6c; x6f] [RData Sample.world_]);
    [apply (bool_decide_unpack _); vm_compute; reflexivity | vm_compute; lia].
Defined.

(* ================================================================== *)
(** * Further properties of the code *)

(* ------------------------------------------------------------------ *)
(** ** Bits of [tcflag_t] updates *)

Lemma testbit_u32 (x i : Z) : u32_ok x = true -> 32 <= i -> Z.testbit x i = false.
Proof.
  unfold u32_ok; intros H Hi; apply andb_prop in H as [H1 H2].
  apply Z.leb_le in H1; apply Z.ltb_lt in H2.
  destruct (Z.eq_dec x 0) as [->|Hx]; [apply Z.testbit_0_l |].
  apply Z.bits_above_log2; [lia |].
  apply Z.lt_le_trans with 32; [| lia].
  apply (proj1 (Z.log2_lt_pow2 x 32 ltac:(lia))); exact H2.
Qed.

Lemma testbit_not32 (m i : Z) : 0 <= i ->
  Z.testbit (Tty.not32 m) i = negb (Z.testbit m i) && (i <? 32).
Proof.
  intros Hi. unfold Tty.not32. rewrite Z.land_spec, Z.lnot_spec by lia.
  replace (2 ^ 32 - 1) with (Z.ones 32) by reflexivity.
  rewrite Z.testbit_ones_nonneg by lia. reflexivity.
Qed.

Ltac bits_of i Hi :=
  apply Z.bits_inj'; intros i Hi; unfold Tty.clear, Tty.setb;
  repeat first [ rewrite Z.land_spec | rewrite Z.lor_spec
               | rewrite testbit_not32 by lia | rewrite Z.testbit_0_l ].

Lemma clear_setb (x m : Z) : Tty.clear (Tty.setb x m) m = Tty.clear x m.
Proof.
  bits_of i Hi. destruct (Z.testbit x i), (Z.testbit m i); reflexivity.
Qed.

Lemma setb_clear (x m : Z) : u32_ok x = true -> Tty.setb (Tty.clear x m) m = Tty.setb x m.
Proof.
  intros Hx. bits_of i Hi.
  destruct (Z.ltb_spec i 32); [| rewrite (testbit_u32 x i Hx) by lia];
    destruct (Z.testbit x i), (Z.testbit m i); reflexivity.
Qed.

Lemma setb_clear_id (x m : Z) : u32_ok x = true ->
  Tty.setb (Tty.clear x m) m = x <-> Z.land x m = m.
Proof.
  intros Hx. split.
  - intros H. rewrite <- H. bits_of i Hi.
    destruct (Z.testbit x i), (Z.testbit m i), (i <? 32); reflexivity.
  - intros H. bits_of i Hi.
    assert (Hb := f_equal (fun z => Z.testbit z i) H); cbn beta in Hb.
    rewrite Z.land_spec in Hb.
    destruct (Z.ltb_spec i 32); [| rewrite (testbit_u32 x i Hx) in Hb |- * by lia];
      destruct (Z.testbit x i), (Z.testbit m i); cbn in Hb |- *; congruence.
Qed.

Lemma clear_setb_id (x m : Z) : u32_ok x = true ->
  Tty.clear (Tty.setb x m) m = x <-> Z.land x m = 0.
Proof.
  intros Hx. split.
  - intros H. rewrite <- H. bits_of i Hi.
    destruct (Z.testbit x i), (Z.testbit m i), (i <? 32); reflexivity.
  - intros H. bits_of i Hi.
    assert (Hb := f_equal (fun z => Z.testbit z i) H); cbn beta in Hb.
    rewrite Z.land_spec, Z.testbit_0_l in Hb.
    destruct (Z.ltb_spec i 32); [| rewrite (testbit_u32 x i Hx) in Hb |- * by lia];
      destruct (Z.testbit x i), (Z.testbit m i); cbn in Hb |- *; congruence.
Qed.

Lemma flags_ok_fields (t : Tty.termios) : flags_ok t = true ->
  u32_ok (Tty.c_iflag t) = true /\ u32_ok (Tty.c_oflag t) = true /\
  u32_ok (Tty.c_cflag t) = true /\ u32_ok (Tty.c_lflag t) = true.
Proof. unfold flags_ok; intros H; rewrite !andb_true_iff in H; tauto. Qed.

Lemma upd_iflag_id (f : Z -> Z) (t : Tty.termios) :
  Tty.upd_iflag f t = t <-> f (Tty.c_iflag t) = Tty.c_iflag t.
Proof. destruct t; unfold Tty.upd_iflag; cbn; split; [intros H; apply (f_equal Tty.c_iflag) in H; exact H | intros ->; reflexivity]. Qed.
Lemma upd_oflag_id (f : Z -> Z) (t : Tty.termios) :
  Tty.upd_oflag f t = t <-> f (Tty.c_oflag t) = Tty.c_oflag t.
Proof. destruct t; unfold Tty.upd_oflag; cbn; split; [intros H; apply (f_equal Tty.c_oflag) in H; exact H | intros ->; reflexivity]. Qed.
Lemma upd_lflag_id (f : Z -> Z) (t : Tty.termios) :
  Tty.upd_lflag f t = t <-> f (Tty.c_lflag t) = Tty.c_lflag t.
Proof. destruct t; unfold Tty.upd_lflag; cbn; split; [intros H; apply (f_equal Tty.c_lflag) in H; exact H | intros ->; reflexivity]. Qed.

Lemma land_setb_mask (x s k : Z) : Z.land s k = k -> Z.land (Tty.setb x s) k = k.
Proof.
  intros H. bits_of i Hi.
  assert (Hb := f_equal (fun z => Z.testbit z i) H); cbn beta in Hb.
  rewrite Z.land_spec in Hb.
  destruct (Z.testbit x i), (Z.testbit s i), (Z.testbit k i); cbn in Hb |- *; congruence.
Qed.

Lemma land_setb_0 (x s k : Z) : Z.land s k = 0 -> Z.land x k = 0 -> Z.land (Tty.setb x s) k = 0.
Proof. intros H1 H2. unfold Tty.setb. rewrite Z.land_lor_distr_l, H1, H2. reflexivity. Qed.

Lemma land_clear_keep (x m k : Z) : Z.land (Tty.not32 m) k = k -> Z.land (Tty.clear x m) k = Z.land x k.
Proof. intros H; unfold Tty.clear; rewrite <- Z.land_assoc, H; reflexivity. Qed.

(* ------------------------------------------------------------------ *)
(** ** Mode transforms *)

(** Each toggle pair (echo, flow control, output processing) obeys "the
    last call wins": enabling after disabling is enabling, disabling after
    enabling is disabling (on [u32] flag fields). *)
Theorem toggles_last_call_wins (t : Tty.termios) (Hok : flags_ok t = true) :
  Tty.enable_echo_f (Tty.disable_echo_f t) = Tty.enable_echo_f t /\
  Tty.disable_echo_f (Tty.enable_echo_f t) = Tty.disable_echo_f t /\
  Tty.enable_flow_control_f (Tty.disable_flow_control_f t) = Tty.enable_flow_control_f t /\
  Tty.disable_flow_control_f (Tty.enable_flow_control_f t) = Tty.disable_flow_control_f t /\
  Tty.enable_output_processing_f (Tty.disable_output_processing_f t) = Tty.enable_output_processing_f t /\
  Tty.disable_output_processing_f (Tty.enable_output_processing_f t) = Tty.disable_output_processing_f t.
Proof.
  apply flags_ok_fields in Hok as (Hi & Ho & _ & Hl).
  destruct t; cbn in *.
  unfold Tty.enable_echo_f, Tty.disable_echo_f, Tty.enable_flow_control_f, Tty.disable_flow_control_f,
    Tty.enable_output_processing_f, Tty.disable_output_processing_f,
    Tty.upd_iflag, Tty.upd_oflag, Tty.upd_lflag; cbn.
  rewrite !setb_clear, !clear_setb by assumption.
  repeat split.
Qed.

(** A disable/enable round trip of a toggle restores the snapshot exactly
    when the toggle's bits were all set before, and an enable/disable
    round trip exactly when they were all clear. *)
Theorem toggle_round_trip_iff (t : Tty.termios) (Hok : flags_ok t = true) :
  (Tty.enable_echo_f (Tty.disable_echo_f t) = t <->
     Z.land (Tty.c_lflag t) (Z.lor Tty.ECHO Tty.ECHONL) = Z.lor Tty.ECHO Tty.ECHONL) /\
  (Tty.disable_echo_f (Tty.enable_echo_f t) = t <->
     Z.land (Tty.c_lflag t) (Z.lor Tty.ECHO Tty.ECHONL) = 0) /\
  (Tty.enable_flow_control_f (Tty.disable_flow_control_f t) = t <->
     Z.land (Tty.c_iflag t) Tty.IXON = Tty.IXON) /\
  (Tty.disable_flow_control_f (Tty.enable_flow_control_f t) = t <->
     Z.land (Tty.c_iflag t) Tty.IXON = 0) /\
  (Tty.enable_output_processing_f (Tty.disable_output_processing_f t) = t <->
     Z.land (Tty.c_oflag t) Tty.OPOST = Tty.OPOST) /\
  (Tty.disable_output_processing_f (Tty.enable_output_processing_f t) = t <->
     Z.land (Tty.c_oflag t) Tty.OPOST = 0).
Proof.
  apply flags_ok_fields in Hok as (Hi & Ho & _ & Hl).
  assert (Elf : forall f g, Tty.upd_lflag f (Tty.upd_lflag g t) = Tty.upd_lflag (fun x => f (g x)) t)
    by (intros; destruct t; reflexivity).
  assert (Eif : forall f g, Tty.upd_iflag f (Tty.upd_iflag g t) = Tty.upd_iflag (fun x => f (g x)) t)
    by (intros; destruct t; reflexivity).
  assert (Eof : forall f g, Tty.upd_oflag f (Tty.upd_oflag g t) = Tty.upd_oflag (fun x => f (g x)) t)
    by (intros; destruct t; reflexivity).
  unfold Tty.enable_echo_f, Tty.disable_echo_f, Tty.enable_flow_control_f, Tty.disable_flow_control_f,
    Tty.enable_output_processing_f, Tty.disable_output_processing_f.
  rewrite Elf, Eif, Eof, Elf, Eif, Eof, upd_lflag_id, upd_lflag_id, upd_iflag_id, upd_iflag_id,
    upd_oflag_id, upd_oflag_id.
  repeat split; first [apply setb_clear_id | apply clear_setb_id]; assumption.
Qed.

(** Cooked mode and password mode do not undo raw mode: after raw mode,
    cooked mode turns echo, newline echo, canonical input and UTF-8 input
    on, and password mode canonical input and newline echo (echo stays
    off), but both leave flow control, the input translations, break and
    parity handling, signal keys, extended input, output processing and
    the CS8 bits cleared. *)
Theorem cooked_and_password_keep_raw_bits_cleared (t : Tty.termios) :
  let rawi := Z.lor (Z.lor (Z.lor (Z.lor (Z.lor Tty.IXON Tty.ICRNL) Tty.BRKINT) Tty.INPCK) Tty.ISTRIP) Tty.INLCR in
  let c := Tty.cooked_f (Tty.raw_f t) in
  let p := Tty.password_f (Tty.raw_f t) in
  Z.land (Tty.c_iflag c) rawi = 0 /\ Z.land (Tty.c_oflag c) Tty.OPOST = 0 /\
  Z.land (Tty.c_cflag c) Tty.CS8 = 0 /\ Z.land (Tty.c_lflag c) (Z.lor Tty.IEXTEN Tty.ISIG) = 0 /\
  Z.land (Tty.c_lflag c) (Z.lor (Z.lor Tty.ECHO Tty.ECHONL) Tty.ICANON) =
    Z.lor (Z.lor Tty.ECHO Tty.ECHONL) Tty.ICANON /\
  Z.land (Tty.c_iflag c) Tty.IUTF8 = Tty.IUTF8 /\
  Z.land (Tty.c_iflag p) rawi = 0 /\ Z.land (Tty.c_oflag p) Tty.OPOST = 0 /\
  Z.land (Tty.c_cflag p) Tty.CS8 = 0 /\ Z.land (Tty.c_lflag p) (Z.lor Tty.IEXTEN Tty.ISIG) = 0 /\
  Z.land (Tty.c_lflag p) Tty.ECHO = 0 /\
  Z.land (Tty.c_lflag p) (Z.lor Tty.ECHONL Tty.ICANON) = Z.lor Tty.ECHONL Tty.ICANON.
Proof.
  destruct t; cbn.
  repeat split;
    first
      [ apply land_setb_mask; reflexivity
      | apply land_setb_0; [reflexivity |]; apply land_clear_0; reflexivity
      | apply land_setb_0; [reflexivity |];
        rewrite land_clear_keep by reflexivity; apply land_clear_0; reflexivity
      | apply land_clear_0; reflexivity
      | rewrite land_clear_keep by reflexivity; apply land_clear_0; reflexivity ].
Qed.

(* ------------------------------------------------------------------ *)
(** ** Input timeout settings *)

Lemma upd_cc_pair_twice (i j : nat) (v w v' w' : Z) (t : Tty.termios) : i <> j ->
  Tty.upd_cc i v (Tty.upd_cc j w (Tty.upd_cc i v' (Tty.upd_cc j w' t))) =
  Tty.upd_cc i v (Tty.upd_cc j w t).
Proof.
  intros Hij. destruct t; unfold Tty.upd_cc; cbn.
  rewrite (list_insert_insert_ne _ j i) by congruence.
  rewrite !list_insert_insert_eq. reflexivity.
Qed.

(** The input-timeout settings only write [c_cc]'s VMIN and VTIME, so the
    last call wins: a second [input_timeout] replaces the first,
    [disable_input_timeout] undoes any [input_timeout] and vice versa,
    and neither touches the flag fields or the original snapshot. *)
Theorem timeout_settings_last_call_wins (d d' : Tty.Duration) (T : Tty.Term) :
  Tty.input_timeout d' (Tty.input_timeout d T) = Tty.input_timeout d' T /\
  Tty.disable_input_timeout (Tty.input_timeout d T) = Tty.disable_input_timeout T /\
  Tty.input_timeout d (Tty.disable_input_timeout T) = Tty.input_timeout d T /\
  Tty.orig (Tty.input_timeout d T) = Tty.orig T /\
  Tty.orig (Tty.disable_input_timeout T) = Tty.orig T /\
  (forall t', t' = Tty.work (Tty.input_timeout d T) \/ t' = Tty.work (Tty.disable_input_timeout T) ->
     Tty.c_iflag t' = Tty.c_iflag (Tty.work T) /\ Tty.c_oflag t' = Tty.c_oflag (Tty.work T) /\
     Tty.c_cflag t' = Tty.c_cflag (Tty.work T) /\ Tty.c_lflag t' = Tty.c_lflag (Tty.work T)).
Proof.
  destruct T as [o w].
  unfold Tty.input_timeout, Tty.disable_input_timeout, Tty.with_termios,
    Tty.input_timeout_f, Tty.disable_input_timeout_f; cbn [Tty.orig Tty.work].
  split; [rewrite upd_cc_pair_twice by (unfold Tty.VTIME, Tty.VMIN; lia); reflexivity |].
  split; [rewrite upd_cc_pair_twice by (unfold Tty.VTIME, Tty.VMIN; lia); reflexivity |].
  split; [rewrite upd_cc_pair_twice by (unfold Tty.VTIME, Tty.VMIN; lia); reflexivity |].
  split; [reflexivity |]. split; [reflexivity |].
  intros t' [-> | ->]; destruct w; repeat split.
Qed.

(** A longer requested timeout never stores a shorter one: the stored
    tenths grow with the duration's milliseconds. *)
Theorem input_timeout_monotone (d1 d2 : Tty.Duration)
  (Hle : (Tty.as_millis d1 <= Tty.as_millis d2)%N) :
  Tty.tenths_of d1 <= Tty.tenths_of d2.
Proof.
  unfold Tty.tenths_of.
  assert (Hdiv : (Tty.as_millis d1 / 100 <= Tty.as_millis d2 / 100)%N)
    by (apply N.Div0.div_le_mono; exact Hle).
  destruct (N.eqb_spec (Tty.as_millis d1 / 100) 0);
    destruct (N.leb_spec (Tty.as_millis d1 / 100) 255);
    destruct (N.eqb_spec (Tty.as_millis d2 / 100) 0);
    destruct (N.leb_spec (Tty.as_millis d2 / 100) 255); lia.
Qed.

(* ------------------------------------------------------------------ *)
(** ** Keystroke classification and [as_char] *)

(** [is_empty], [is_ctrl_c], [is_esc], [is_esc_code] and [is_enter]
    exclude each other: at most one holds for any keystroke. *)
Theorem keystroke_classes_exclusive (k : Key.Keystroke) :
  (length (List.filter (fun b : bool => b)
     [Key.is_empty k; Key.is_ctrl_c k; Key.is_esc k; Key.is_esc_code k; Key.is_enter k]) <= 1)%nat.
Proof.
  destruct k as [a b c d].
  unfold Key.is_empty, Key.is_ctrl_c, Key.is_esc, Key.is_esc_code, Key.is_enter, Key.eq4; cbn [Key.k0 Key.k1 Key.k2 Key.k3].
  repeat match goal with
         | |- context [Byte.eqb ?v ?w] =>
             is_var v;
             let E := fresh "E" in
             destruct (Byte.eqb v w) eqn:E; [apply byte_eqb_iff in E; subst v |]; cbn
         end;
    cbn; lia.
Qed.

Lemma byte_to_N_inj (a b : byte) : Byte.to_N a = Byte.to_N b -> a = b.
Proof.
  intros H. apply (f_equal Byte.of_N) in H. rewrite !Byte.of_to_N in H.
  injection H as H; exact H.
Qed.

Lemma byte_to_N_x00 (a : byte) : Byte.to_N a = 0%N -> a = x00.
Proof. intros H. apply byte_to_N_inj. rewrite H. reflexivity. Qed.

Lemma char_from_u32_some (u c : Z) : Lib.char_from_u32 u = Some c -> c = u.
Proof. unfold Lib.char_from_u32. destruct (_ || _); congruence. Qed.

(** [as_char] is the ASCII char [v] exactly for the keystroke [v,0,0,0]. *)
Lemma as_char_is (k : Key.Keystroke) (v : byte) : (Byte.to_N v < 128)%N ->
  Lib.as_char k = Some (Z.of_N (Byte.to_N v)) <-> k = Key.mkKeystroke v x00 x00 x00.
Proof.
  intros Hv. split.
  - destruct k as [a b c d]. unfold Lib.as_char, Lib.u32_of_keystroke; cbn [Key.k0 Key.k1 Key.k2 Key.k3].
    intros H. apply char_from_u32_some in H.
    pose proof (Byte.to_N_bounded a); pose proof (Byte.to_N_bounded b);
    pose proof (Byte.to_N_bounded c); pose proof (Byte.to_N_bounded d).
    assert (Hb : Byte.to_N b = 0%N) by lia. assert (Hc : Byte.to_N c = 0%N) by lia.
    assert (Hd : Byte.to_N d = 0%N) by lia. assert (Ha : Byte.to_N a = Byte.to_N v) by lia.
    apply byte_to_N_x00 in Hb, Hc, Hd. apply byte_to_N_inj in Ha. subst; reflexivity.
  - intros ->. unfold Lib.as_char, Lib.u32_of_keystroke, Lib.char_from_u32; cbn [Key.k0 Key.k1 Key.k2 Key.k3].
    change (Byte.to_N x00) with 0%N.
    replace (Z.of_N (Byte.to_N v) + 256 * Z.of_N 0 + 65536 * Z.of_N 0 + 16777216 * Z.of_N 0)
      with (Z.of_N (Byte.to_N v)) by lia.
    rewrite (proj2 (Z.ltb_lt _ 55296)) by lia. reflexivity.
Qed.

(** [as_char] reads the keystroke's bytes as one little-endian number, it
    does not decode UTF-8: an ASCII key gives its char, a key typed as a
    two-byte UTF-8 sequence gives a char that is not the one typed, and a
    three- or four-byte sequence gives no char at all. *)
Theorem as_char_does_not_decode_utf8 :
  (forall a : byte, (Byte.to_N a < 128)%N ->
     Lib.as_char (Key.fill [a] Key.new) = Some (Z.of_N (Byte.to_N a))) /\
  (forall a b : byte, (194 <= Byte.to_N a <= 223)%N -> (128 <= Byte.to_N b <= 191)%N ->
     Lib.as_char (Key.fill [a; b] Key.new) = Some (Z.of_N (Byte.to_N a) + 256 * Z.of_N (Byte.to_N b)) /\
     Z.of_N (Byte.to_N a) + 256 * Z.of_N (Byte.to_N b) <>
       (Z.of_N (Byte.to_N a) - 192) * 64 + (Z.of_N (Byte.to_N b) - 128)) /\
  (forall a b c : byte, (224 <= Byte.to_N a <= 239)%N -> (128 <= Byte.to_N b <= 191)%N ->
     (128 <= Byte.to_N c <= 191)%N ->
     Lib.as_char (Key.fill [a; b; c] Key.new) = None) /\
  (forall a b c d : byte, (240 <= Byte.to_N a <= 244)%N -> (128 <= Byte.to_N b <= 191)%N ->
     (128 <= Byte.to_N c <= 191)%N -> (128 <= Byte.to_N d <= 191)%N ->
     Lib.as_char (Key.fill [a; b; c; d] Key.new) = None).
Proof.
  unfold Lib.as_char, Lib.u32_of_keystroke, Lib.char_from_u32; cbn [Key.fill Key.new Key.k0 Key.k1 Key.k2 Key.k3].
  change (Byte.to_N x00) with 0%N.
  repeat split; intros;
    repeat match goal with
           | |- context [?x <? ?y] => destruct (Z.ltb_spec x y)
           end; cbn; try lia; try (f_equal; lia).
Qed.

(* ------------------------------------------------------------------ *)
(** ** prompt_yn *)

Lemma yn_char_true (k : Key.Keystroke) :
  (match Lib.as_char k with
   | Some c => if (c =? 121) || (c =? 89) then Some true
               else if (c =? 110) || (c =? 78) then Some false else None
   | None => None
   end) = Some true <->
  k = Key.mkKeystroke x79 x00 x00 x00 \/ k = Key.mkKeystroke x59 x00 x00 x00.
Proof.
  destruct (Lib.as_char k) as [c|] eqn:Ec;
    [| split; [discriminate | intros [-> | ->]; discriminate Ec]].
  destruct (Z.eqb_spec c 121) as [->|n1]; cbn.
  { split; [intros _; left; apply (as_char_is k x79 eq_refl); exact Ec | reflexivity]. }
  destruct (Z.eqb_spec c 89) as [->|n2]; cbn.
  { split; [intros _; right; apply (as_char_is k x59 eq_refl); exact Ec | reflexivity]. }
  split; [destruct (_ || _); discriminate |].
  intros [-> | ->]; vm_compute in Ec; exfalso; injection Ec as Ec; lia.
Qed.

Lemma yn_char_false (k : Key.Keystroke) :
  (match Lib.as_char k with
   | Some c => if (c =? 121) || (c =? 89) then Some true
               else if (c =? 110) || (c =? 78) then Some false else None
   | None => None
   end) = Some false <->
  k = Key.mkKeystroke x6e x00 x00 x00 \/ k = Key.mkKeystroke x4e x00 x00 x00.
Proof.
  destruct (Lib.as_char k) as [c|] eqn:Ec;
    [| split; [discriminate | intros [-> | ->]; discriminate Ec]].
  destruct (Z.eqb_spec c 121) as [->|n1]; cbn.
  { split; [discriminate | intros [-> | ->]; vm_compute in Ec; exfalso; injection Ec as Ec; lia]. }
  destruct (Z.eqb_spec c 89) as [->|n2]; cbn.
  { split; [discriminate | intros [-> | ->]; vm_compute in Ec; exfalso; injection Ec as Ec; lia]. }
  destruct (Z.eqb_spec c 110) as [->|n3]; cbn.
  { split; [intros _; left; apply (as_char_is k x6e eq_refl); exact Ec | reflexivity]. }
  destruct (Z.eqb_spec c 78) as [->|n4]; cbn.
  { split; [intros _; right; apply (as_char_is k x4e eq_refl); exact Ec | reflexivity]. }
  split; [discriminate |].
  intros [-> | ->]; vm_compute in Ec; exfalso; injection Ec as Ec; lia.
Qed.

(** What one keystroke makes [prompt_yn] return: [true] for Enter when the
    default is yes, or for exactly the keystroke ['y',0,0,0] or
    ['Y',0,0,0]; [false] for Enter when the default is no, or for exactly
    ['n',0,0,0] or ['N',0,0,0]; any other keystroke (two keys in one
    read, Enter without a default, ...) makes it ask again. *)
Theorem yn_decide_spec (d : option bool) (k : Key.Keystroke) :
  (Lib.yn_decide d k = Some true <->
     (Key.is_enter k = true /\ d = Some true) \/
     k = Key.mkKeystroke x79 x00 x00 x00 \/ k = Key.mkKeystroke x59 x00 x00 x00) /\
  (Lib.yn_decide d k = Some false <->
     (Key.is_enter k = true /\ d = Some false) \/
     k = Key.mkKeystroke x6e x00 x00 x00 \/ k = Key.mkKeystroke x4e x00 x00 x00).
Proof.
  unfold Lib.yn_decide.
  pose proof (yn_char_true k) as Ht. pose proof (yn_char_false k) as Hf.
  assert (Hne : Key.is_enter k = true ->
    ~ (k = Key.mkKeystroke x79 x00 x00 x00 \/ k = Key.mkKeystroke x59 x00 x00 x00 \/
       k = Key.mkKeystroke x6e x00 x00 x00 \/ k = Key.mkKeystroke x4e x00 x00 x00))
    by (intros E [-> | [-> | [-> | ->]]]; discriminate E).
  destruct (Key.is_enter k) eqn:En; destruct d as [[|]|]; cbn; rewrite ?Ht, ?Hf.
  all: split; split; [intros H | intros [[H1 H2] | H] | intros H | intros [[H1 H2] | H]].
  all: first [ right; exact H | left; split; reflexivity | discriminate H
             | discriminate H1 | discriminate H2 | reflexivity | exact H
             | exfalso; apply (Hne eq_refl); tauto ].
Qed.

Lemma keystroke_reads_chunk (s : Sess.St) (c : list byte) (r : Reader) :
  Sess.set_script (Sess.world s) = [] -> Sess.input (Sess.world s) = RData c :: r ->
  (length c <= 4)%nat ->
  exists s', Sess.keystroke s = (Ok (Key.fill c Key.new), s') /\
             Sess.set_script (Sess.world s') = [] /\ Sess.input (Sess.world s') = r.
Proof.
  destruct s as [T [dv tty sc inp outs tr]]; cbn; intros -> -> Hc.
  unfold Sess.keystroke, mbind, Sess.M_bind, Sess.modify, Sess.set, Sess.set_termios,
    Sess.catch, Sess.get_raw_keystroke, Sess.read, Sess.reset, Sess.lift, Sess.log; cbn.
  unfold mbind, Sess.M_bind, mret, Sess.M_ret, Sess.modify, Sess.set, Sess.set_termios, Sess.log; cbn.
  rewrite drop_ge, take_ge by exact Hc. cbn.
  eexists; split; [reflexivity | split; reflexivity].
Qed.

Lemma keystroke_exhausted (s : Sess.St) :
  Sess.set_script (Sess.world s) = [] -> Sess.input (Sess.world s) = [] ->
  exists s', Sess.keystroke s = (Ok (Key.fill [] Key.new), s') /\
             Sess.set_script (Sess.world s') = [] /\ Sess.input (Sess.world s') = [].
Proof.
  destruct s as [T [dv tty sc inp outs tr]]; cbn; intros -> ->.
  eexists; split; [reflexivity | split; reflexivity].
Qed.

Lemma prompt_yn_exhausted (fuel : nat) (d : option bool) (msg : list Z) (s : Sess.St) :
  Sess.set_script (Sess.world s) = [] -> Sess.input (Sess.world s) = [] ->
  fst (fst (Lib.prompt_yn fuel d msg s)) = Running /\
  Forall (fun o => o = Lib.yn_prompt d msg) (snd (fst (Lib.prompt_yn fuel d msg s))).
Proof.
  revert s; induction fuel as [|fuel IH]; intros s Hs Hi; [split; [reflexivity | constructor] |].
  destruct (keystroke_exhausted s Hs Hi) as (s' & Hk & Hs' & Hi').
  cbn [Lib.prompt_yn]; rewrite Hk.
  replace (Lib.yn_decide d (Key.fill [] Key.new)) with (@None bool) by (destruct d as [[|]|]; reflexivity).
  specialize (IH s' Hs' Hi').
  destruct (Lib.prompt_yn fuel d msg s') as [[r outs] s''].
  cbn in *. destruct IH as [IH1 IH2]. split; [exact IH1 | constructor; [reflexivity | exact IH2]].
Qed.

(** [prompt_yn] reading keystrokes one per read (each of at most 4 bytes,
    with every tcsetattr succeeding) answers what the first decisive
    keystroke says, and keeps asking, printing only its prompt, while the
    keys are not decisive and once the input is exhausted. *)
Theorem prompt_yn_answers_first_decisive_key (fuel : nat) (d : option bool) (msg : list Z)
  (ks : list (list byte)) (s : Sess.St)
  (Hks : Forall (fun c => (length c <= 4)%nat) ks)
  (Hset : Sess.set_script (Sess.world s) = [])
  (Hin : Sess.input (Sess.world s) = map RData ks)
  (Hfuel : (length ks <= fuel)%nat) :
  fst (fst (Lib.prompt_yn fuel d msg s)) =
    match yn_answer d ks with Some b => Returns b | None => Running end /\
  Forall (fun o => o = Lib.yn_prompt d msg) (snd (fst (Lib.prompt_yn fuel d msg s))).
Proof.
  revert fuel s Hset Hin Hfuel; induction ks as [|c ks IH]; intros fuel s Hset Hin Hfuel.
  - apply prompt_yn_exhausted; assumption.
  - destruct fuel as [|fuel]; [cbn in Hfuel; lia |].
    inversion Hks as [|? ? Hc Hks']; subst.
    destruct (keystroke_reads_chunk s c (map RData ks) Hset Hin Hc) as (s' & Hk & Hs' & Hi').
    cbn [Lib.prompt_yn]; rewrite Hk.
    unfold yn_answer; cbn [map first_some].
    destruct (Lib.yn_decide d (Key.fill c Key.new)) as [b|] eqn:Ed.
    + split; [reflexivity | constructor; [reflexivity | constructor]].
    + specialize (IH Hks' fuel s' Hs' Hi' ltac:(cbn in Hfuel; lia)).
      unfold yn_answer in IH.
      destruct (Lib.prompt_yn fuel d msg s') as [[r outs] s''].
      cbn in *. destruct IH as [IH1 IH2]. split; [exact IH1 | constructor; [reflexivity | exact IH2]].
Qed.

(* ------------------------------------------------------------------ *)
(** ** prompt_menu *)

Lemma contains_spec (l : list Z) (c : Z) : Lib.contains l c = true <-> c ∈ l.
Proof.
  unfold Lib.contains. rewrite existsb_exists, list_elem_of_In. split.
  - intros [x [Hx E]]. apply Z.eqb_eq in E. subst; exact Hx.
  - intros H. exists c. split; [exact H | apply Z.eqb_refl].
Qed.

Lemma menu_options_acc (acc : list Z) (menu : list (list Z)) : NoDup acc ->
  snd (Lib.menu_options acc menu) =
    (if bool_decide (NoDup (acc ++ menu_heads menu)) then Some (acc ++ menu_heads menu) else None) /\
  (NoDup (acc ++ menu_heads menu) ->
   fst (Lib.menu_options acc menu) =
     flat_map (fun l => match l with
                        | opt :: ((_ :: _) as rest) => [opt :: 41 :: rest ++ [10]]
                        | _ => [] end) menu).
Proof.
  revert acc; induction menu as [|l menu IH]; intros acc Hacc.
  - cbn. rewrite app_nil_r, bool_decide_true by exact Hacc. split; reflexivity.
  - destruct l as [|opt rest]; cbn [Lib.menu_options menu_heads flat_map app].
    + apply (IH acc Hacc).
    + destruct (Lib.contains acc opt) eqn:Ec.
      * apply contains_spec in Ec.
        assert (Hn : ~ NoDup (acc ++ opt :: menu_heads menu)).
        { intros Hd. apply NoDup_app in Hd as (_ & Hd & _). exact (Hd opt Ec ltac:(left)). }
        cbn. rewrite bool_decide_false by exact Hn. split; [reflexivity | intros Hd; contradiction].
      * assert (Hni : opt ∉ acc) by (intros Hi; apply contains_spec in Hi; congruence).
        assert (Hacc' : NoDup (acc ++ [opt])).
        { apply NoDup_app. split; [exact Hacc | split; [| apply NoDup_singleton]].
          intros x Hx Hx'. apply list_elem_of_singleton in Hx'. subst; contradiction. }
        specialize (IH (acc ++ [opt]) Hacc'). rewrite <- app_assoc in IH. cbn in IH.
        destruct (Lib.menu_options (acc ++ [opt]) menu) as [outs r].
        cbn in *. destruct IH as [IH1 IH2]. split; [exact IH1 |].
        intros Hd. rewrite (IH2 Hd). destruct rest; reflexivity.
Qed.

(** The menu loop of [prompt_menu] collects the first char of each
    non-empty line as an option: it panics exactly when two lines start
    with the same char, and otherwise prints ["{opt}){rest}"] for each
    line with more than one char, in order. *)
Theorem menu_options_spec (menu : list (list Z)) :
  snd (Lib.menu_options [] menu) =
    (if bool_decide (NoDup (menu_heads menu)) then Some (menu_heads menu) else None) /\
  (NoDup (menu_heads menu) ->
   fst (Lib.menu_options [] menu) =
     flat_map (fun l => match l with
                        | opt :: ((_ :: _) as rest) => [opt :: 41 :: rest ++ [10]]
                        | _ => [] end) menu).
Proof. apply (menu_options_acc [] menu), NoDup_nil_2. Qed.

Lemma menu_loop_returns (fuel : nat) (default : option Z) (prompt choices : list Z)
  (s : Sess.St) (c : Z) :
  fst (fst (Lib.menu_loop fuel default prompt choices s)) = Returns c ->
  c ∈ choices \/ default = Some c.
Proof.
  revert s; induction fuel as [|fuel IH]; intros s H; [discriminate H |].
  cbn [Lib.menu_loop] in H.
  destruct (Sess.keystroke s) as [[k|e] s']; [| discriminate H].
  destruct (Key.is_enter k), default as [d|];
    try (injection H as <-; right; reflexivity);
    (destruct (Lib.as_char k) as [c'|];
     [destruct (Lib.contains choices c') eqn:Ec;
      [injection H as <-; left; apply contains_spec; exact Ec |] |];
     destruct (Lib.menu_loop fuel _ prompt choices s') as [[r outs] s''] eqn:E;
     apply (IH s'); rewrite E; exact H).
Qed.

(** [prompt_menu] only ever returns one of the menu's options (the first
    chars of its lines), and panics before reading any key when a default
    is given that is not an option or when an option is duplicated. *)
Theorem prompt_menu_answer_is_option (fuel : nat) (default : option Z) (prompt : list Z)
  (menu : list (list Z)) (s : Sess.St) :
  (forall c, fst (fst (Lib.prompt_menu fuel default prompt menu s)) = Returns c ->
             c ∈ menu_heads menu) /\
  (forall d, default = Some d -> d ∉ menu_heads menu ->
             fst (fst (Lib.prompt_menu fuel default prompt menu s)) = Panics /\
             snd (Lib.prompt_menu fuel default prompt menu s) = s) /\
  (~ NoDup (menu_heads menu) ->
             fst (fst (Lib.prompt_menu fuel default prompt menu s)) = Panics /\
             snd (Lib.prompt_menu fuel default prompt menu s) = s).
Proof.
  pose proof (proj1 (menu_options_acc [] menu NoDup_nil_2)) as Hspec. cbn [app] in Hspec.
  unfold Lib.prompt_menu.
  destruct (Lib.menu_options [] menu) as [outs [choices|]]; cbn in Hspec.
  - case_bool_decide as Hnd; [| discriminate Hspec].
    injection Hspec as Hc; subst choices.
    split; [| split; [| intros Hn; contradiction]].
    + intros c.
      destruct (match default with Some d => Lib.contains (menu_heads menu) d | None => true end) eqn:Ok;
        [| discriminate].
      destruct (Lib.menu_loop fuel default prompt (menu_heads menu) s) as [[r outs'] s'] eqn:E.
      cbn. intros ->.
      destruct (menu_loop_returns fuel default prompt (menu_heads menu) s c) as [Hc | ->];
        [rewrite E; reflexivity | exact Hc |].
      apply contains_spec; exact Ok.
    + intros d -> Hd.
      destruct (Lib.contains (menu_heads menu) d) eqn:Ec;
        [apply contains_spec in Ec; contradiction | split; reflexivity].
  - split; [intros c H; discriminate H |].
    split; [intros; split; reflexivity | intros; split; reflexivity].
Qed.

(* ------------------------------------------------------------------ *)
(** ** press_any_key *)

Lemma bind_catch {A B} (m : Sess.M A) (k : io_result A -> Sess.M B) (s : Sess.St) :
  (x ← Sess.catch m; k x) s = k (fst (m s)) (snd (m s)).
Proof. unfold mbind, Sess.M_bind, Sess.catch. destruct (m s); reflexivity. Qed.

Lemma bind_keeps_orig {A B} (m : Sess.M A) (k : A -> Sess.M B) (s : Sess.St) :
  (forall s, Tty.orig (Sess.term (snd (m s))) = Tty.orig (Sess.term s)) ->
  (forall a s, Tty.orig (Sess.term (snd (k a s))) = Tty.orig (Sess.term s)) ->
  Tty.orig (Sess.term (snd ((x ← m; k x) s))) = Tty.orig (Sess.term s).
Proof.
  intros Hm Hk. unfold mbind, Sess.M_bind.
  specialize (Hm s). destruct (m s) as [[a|e] s']; cbn in *; [rewrite Hk |]; exact Hm.
Qed.

Lemma set_keeps_term (act : Tty.SetAction) (s : Sess.St) :
  Sess.term (snd (Sess.set act s)) = Sess.term s.
Proof. unfold Sess.set. destruct (Sess.set_termios _ _ _); reflexivity. Qed.

Lemma out_op_keeps_term (ev : bool -> Sess.event) (s : Sess.St) :
  Sess.term (snd (Sess.out_op ev s)) = Sess.term s.
Proof. unfold Sess.out_op. destruct (Sess.out_script _) as [|[e|] sc]; reflexivity. Qed.

Lemma reset_effect (act : Tty.SetAction) (s : Sess.St) :
  let '(r, s') := Sess.reset act s in
  Sess.term s' = Tty.mkTerm (Tty.orig (Sess.term s)) (Tty.orig (Sess.term s)) /\
  exists ok, Sess.trace (Sess.world s') =
               Sess.trace (Sess.world s) ++ [Sess.ESetAttr act (Tty.orig (Sess.term s)) ok] /\
             (ok = true -> Sess.dev (Sess.world s') = Tty.orig (Sess.term s)).
Proof.
  destruct s as [[o w] [dv tty sc inp os tr]].
  unfold Sess.reset, mbind, Sess.M_bind, Sess.modify, Sess.set, Sess.set_termios, Sess.log; cbn.
  destruct sc as [|[e|] sc]; cbn; (split; [reflexivity | eexists; split; [reflexivity | cbn; congruence]]).
Qed.

Lemma keystroke_keeps_orig (s : Sess.St) :
  Tty.orig (Sess.term (snd (Sess.keystroke s))) = Tty.orig (Sess.term s).
Proof.
  unfold Sess.keystroke.
  apply bind_keeps_orig; [intros s0; reflexivity | intros _ s1].
  apply bind_keeps_orig; [intros s0; rewrite set_keeps_term; reflexivity | intros _ s2].
  apply bind_keeps_orig; [| intros k s3].
  - intros s0. unfold Sess.catch, Sess.get_raw_keystroke, mbind, Sess.M_bind, Sess.read.
    destruct (reader_read 4 _) as [[c|e] fd']; reflexivity.
  - apply bind_keeps_orig; [| intros _ s4; reflexivity].
    intros s0. pose proof (reset_effect Tty.TCSANOW s0) as H.
    destruct (Sess.reset Tty.TCSANOW s0) as [r s']. cbn [snd]. destruct H as [Ht _]. rewrite Ht. reflexivity.
Qed.

(** [press_any_key] never fails, whatever its writes, reads and commits
    do, and always ends on the revert: the session's working copy is the
    original again, the last effect is the tcsetattr(TCSANOW) of the
    original settings, and when that succeeds the device has them. *)
Theorem press_any_key_restores (s : Sess.St) :
  let '(r, s') := Lib.press_any_key s in
  r = Ok tt /\
  Sess.term s' = Tty.mkTerm (Tty.orig (Sess.term s)) (Tty.orig (Sess.term s)) /\
  exists ok, last (Sess.trace (Sess.world s')) =
               Some (Sess.ESetAttr Tty.TCSANOW (Tty.orig (Sess.term s)) ok) /\
             (ok = true -> Sess.dev (Sess.world s') = Tty.orig (Sess.term s)).
Proof.
  unfold Lib.press_any_key.
  repeat (rewrite bind_catch; cbv beta).
  set (s1 := snd (Sess.write_all _ s)).
  set (s2 := snd (Sess.flush s1)).
  set (s3 := snd ((Sess.modify Tty.raw_mode;; Sess.set Tty.TCSAFLUSH) s2)).
  set (s4 := snd (Sess.keystroke s3)).
  assert (Ho : Tty.orig (Sess.term s4) = Tty.orig (Sess.term s)).
  { unfold s4, s3, s2, s1. rewrite keystroke_keeps_orig.
    rewrite bind_keeps_orig; [| intros s0; reflexivity | intros _ s0; rewrite set_keeps_term; reflexivity].
    unfold Sess.flush, Sess.write_all. rewrite !out_op_keeps_term. reflexivity. }
  pose proof (reset_effect Tty.TCSANOW s4) as H.
  destruct (Sess.reset Tty.TCSANOW s4) as [r s5]. cbn. rewrite Ho in H.
  destruct H as [Ht [ok [Htr Hdev]]].
  split; [reflexivity | split; [exact Ht |]].
  exists ok. rewrite Htr, last_snoc. split; [reflexivity | exact Hdev].
Qed.

(* ------------------------------------------------------------------ *)
(** ** Password::read_line on a used buffer *)

Lemma reader_read_len (cap : nat) (fd fd' : Reader) (c : list byte) :
  reader_read cap fd = (Ok c, fd') -> (length c <= cap)%nat.
Proof.
  destruct fd as [|[l|e] fd]; cbn.
  - intros H; injection H as <- _; cbn; lia.
  - destruct (drop cap l); intros H; injection H as <- _; rewrite length_take; lia.
  - discriminate.
Qed.

Lemma copy_at_length (index : nat) (chunk b : list byte) :
  (index + length chunk <= length b)%nat ->
  length (Pw.copy_at index chunk b) = length b.
Proof.
  intros H. unfold Pw.copy_at. rewrite !length_app, length_take, length_drop. lia.
Qed.

Lemma copy_at_lookup_above (index : nat) (chunk b : list byte) (j : nat) :
  (index + length chunk <= length b)%nat -> (index + length chunk <= j)%nat ->
  Pw.copy_at index chunk b !! j = b !! j.
Proof.
  intros H Hj. unfold Pw.copy_at.
  rewrite lookup_app_r by (rewrite length_take; lia).
  rewrite lookup_app_r by (rewrite length_take; lia).
  rewrite lookup_drop, length_take. f_equal. lia.
Qed.

Lemma loop_keeps_last (fuel index : nat) (b : list byte) (fd : Reader) :
  (index <= 511)%nat -> length b = 512%nat ->
  let '(r, b', fd') := Pw.read_line_loop fuel index b fd in
  length b' = 512%nat /\ b' !! 511%nat = b !! 511%nat.
Proof.
  revert index b fd; induction fuel as [|fuel IH]; intros index b fd Hi Hb; cbn [Pw.read_line_loop];
    [split; [exact Hb | reflexivity] |].
  unfold Pw.PASSWORD_BUFFER_LEN.
  destruct (reader_read (512 - 1 - index) fd) as [[chunk|e] fd'] eqn:Er; [| split; [exact Hb | reflexivity]].
  apply reader_read_len in Er.
  assert (Hfit : (index + length chunk <= length b)%nat) by lia.
  pose proof (copy_at_length index chunk b Hfit) as Hl.
  pose proof (copy_at_lookup_above index chunk b 511 Hfit ltac:(lia)) as Hk.
  destruct (length chunk =? 0)%nat eqn:E0; [split; [lia | exact Hk] |].
  apply Nat.eqb_neq in E0.
  destruct (Pw.byte_is _ _ _).
  - split; [rewrite length_insert; lia |].
    rewrite list_lookup_insert_ne by lia. exact Hk.
  - destruct (512 - 1 <=? index + length chunk)%nat eqn:Ef; [split; [lia | exact Hk] |].
    apply Nat.leb_gt in Ef.
    specialize (IH (index + length chunk)%nat (Pw.copy_at index chunk b) fd' ltac:(lia) ltac:(lia)).
    destruct (Pw.read_line_loop fuel _ _ fd') as [[r b'] fd''].
    destruct IH as [IH1 IH2]. split; [exact IH1 | rewrite IH2; exact Hk].
Qed.

Lemma until_nul_at (b : list byte) (i : nat) :
  b !! i = Some x00 -> exists l, Pw.from_bytes_until_nul b = Some l /\ (length l <= i)%nat.
Proof.
  revert i; induction b as [|x b IH]; intros i H; [discriminate H |].
  cbn. destruct (Byte.eqb x x00) eqn:Ex; [exists []; split; [reflexivity | cbn; lia] |].
  destruct i as [|i]; cbn in H.
  - injection H as ->. discriminate Ex.
  - destruct (IH i H) as (l & Hl & Hlen). rewrite Hl. exists (x :: l). split; [reflexivity | cbn; lia].
Qed.

(** [read_line] writes only below the terminator slot: on a buffer of
    [PASSWORD_BUFFER_LEN] bytes whose last byte is nul (a fresh password
    or one read before), whatever the input and the outcome, the buffer
    keeps its size and its final nul, so [as_bytes] afterwards never
    panics and returns at most 511 bytes. *)
Theorem read_line_keeps_terminator (p : Pw.Password) (fd : Reader)
  (Hlen : length (Pw.buf p) = Pw.PASSWORD_BUFFER_LEN)
  (Hnul : Pw.buf p !! 511%nat = Some x00) :
  let '(r, p', fd') := Pw.read_line p fd in
  length (Pw.buf p') = Pw.PASSWORD_BUFFER_LEN /\ Pw.buf p' !! 511%nat = Some x00 /\
  exists l, Pw.as_bytes p' = Some l /\ (length l <= 511)%nat.
Proof.
  unfold Pw.read_line.
  pose proof (loop_keeps_last Pw.PASSWORD_BUFFER_LEN 0 (Pw.buf p) fd ltac:(lia) Hlen) as H.
  destruct (Pw.read_line_loop _ 0 (Pw.buf p) fd) as [[r b'] fd'].
  destruct H as [H1 H2]. rewrite Hnul in H2. cbn [Pw.buf].
  split; [exact H1 | split; [exact H2 |]].
  unfold Pw.as_bytes, Pw.as_cstr; cbn [Pw.buf]. apply until_nul_at, H2.
Qed.

Lemma loop_fail (e : io_error) (r : Reader) (cs : list (list byte)) :
  forall (f : nat) (pre : list byte),
  Forall (fun c => c <> []) cs -> x0a ∉ concat cs ->
  (length pre + length (concat cs) < 511)%nat -> (511 - length pre <= f)%nat ->
  Pw.read_line_loop f (length pre) (pre ++ repeat x00 (512 - length pre)) (map RData cs ++ RFail e :: r) =
  (Err e, pre ++ concat cs ++ repeat x00 (512 - length pre - length (concat cs)), r).
Proof.
  induction cs as [|c cs IH]; intros f pre Hne Hnl Hlen Hf.
  - destruct f as [|f]; [cbn in Hlen; lia |].
    cbn [Pw.read_line_loop map concat reader_read length app].
    rewrite Nat.sub_0_r. reflexivity.
  - inversion Hne as [|? ? Hc Hne']; subst.
    assert (Hc0 : (0 < length c)%nat) by (destruct c; [done | cbn; lia]).
    destruct f as [|f]; [lia |].
    cbn [concat] in *. rewrite length_app in Hlen.
    change (map RData (c :: cs) ++ RFail e :: r) with (RData c :: (map RData cs ++ RFail e :: r)).
    rewrite loop_step; [| exact Hc | lia |].
    + rewrite IH; [| exact Hne' | intros Hx; apply Hnl; apply elem_of_app; auto
                  | rewrite length_app; lia | rewrite length_app; lia].
      rewrite !length_app, <- !app_assoc, !Nat.sub_add_distr. reflexivity.
    + intros Hx. apply Hnl. apply elem_of_app; left.
      apply list_elem_of_lookup_2 with (length c - 1)%nat. exact Hx.
Qed.

(** A read error in the middle of a line makes [read_line] return the
    error but does not clear the buffer: the bytes read before the error
    stay in the password (followed by nuls), and the input after the
    failed read is left for the next reader. *)
Theorem read_line_error_keeps_partial_input (cs : list (list byte)) (e : io_error) (r : Reader)
  (Hne : Forall (fun c => c <> []) cs) (Hnl : x0a ∉ concat cs)
  (Hlen : (length (concat cs) < 511)%nat) :
  Pw.read_line Pw.new (map RData cs ++ RFail e :: r) =
  (Err e, Pw.mkPassword (concat cs ++ repeat x00 (512 - length (concat cs))), r).
Proof.
  rewrite read_line_new, (loop_fail e r cs); [| exact Hne | exact Hnl | cbn; lia | unfold Pw.PASSWORD_BUFFER_LEN; cbn; lia].
  cbn [app length]. rewrite Nat.sub_0_r. reflexivity.
Qed.

(* ------------------------------------------------------------------ *)
(** ** ensure_running_doas *)

Lemma digit_of_digit_byte (d : N) : (d < 10)%N -> Doas.digit_of (Doas.digit_byte d) = Some d.
Proof.
  intros H.
  assert (d = 0 \/ d = 1 \/ d = 2 \/ d = 3 \/ d = 4 \/ d = 5 \/ d = 6 \/ d = 7 \/ d = 8 \/ d = 9)%N
    as Hd by lia.
  repeat destruct Hd as [-> | Hd]; [reflexivity .. | subst; reflexivity].
Qed.

Lemma dec_aux_parse (fuel : nat) : forall (n : N) (acc : list byte),
  (n < 10 ^ N.of_nat fuel)%N -> (n < 2 ^ 32)%N ->
  Doas.parse_digits 0 (Doas.dec_aux fuel n acc) = Doas.parse_digits n acc.
Proof.
  induction fuel as [|fuel IH]; intros n acc Hf H32;
    [cbn in Hf; assert (n = 0)%N as -> by lia; reflexivity |].
  cbn [Doas.dec_aux].
  destruct (N.ltb_spec n 10).
  - cbn [Doas.parse_digits]. rewrite digit_of_digit_byte by exact H.
    rewrite (proj2 (N.ltb_lt _ _)) by lia. reflexivity.
  - rewrite IH.
    + cbn [Doas.parse_digits]. rewrite digit_of_digit_byte by (apply N.mod_lt; lia).
      replace (n / 10 * 10 + n mod 10)%N with n.
      * rewrite (proj2 (N.ltb_lt _ _)) by exact H32. reflexivity.
      * pose proof (N.div_mod n 10 ltac:(lia)). lia.
    + rewrite Nat2N.inj_succ, N.pow_succ_r' in Hf.
      apply N.Div0.div_lt_upper_bound. lia.
    + pose proof (N.Div0.div_le_upper_bound n 10 n ltac:(lia)). lia.
Qed.

Lemma dec_aux_digits (fuel : nat) : forall (n : N) (acc : list byte),
  Forall (fun c => Doas.digit_of c <> None) acc ->
  Forall (fun c => Doas.digit_of c <> None) (Doas.dec_aux fuel n acc).
Proof.
  induction fuel as [|fuel IH]; intros n acc Hacc; cbn [Doas.dec_aux]; [exact Hacc |].
  destruct (n <? 10)%N eqn:E.
  - apply N.ltb_lt in E. constructor; [rewrite digit_of_digit_byte by exact E; discriminate | exact Hacc].
  - apply IH. constructor; [rewrite digit_of_digit_byte by (apply N.mod_lt; lia); discriminate | exact Hacc].
Qed.

Lemma dec_aux_nonempty (fuel : nat) (n : N) (acc : list byte) :
  fuel <> 0%nat -> Doas.dec_aux fuel n acc <> [].
Proof.
  revert n acc; induction fuel as [|fuel IH]; intros n acc Hf; [contradiction |].
  cbn [Doas.dec_aux]. destruct (n <? 10)%N; [discriminate |].
  destruct fuel as [|fuel]; [cbn; discriminate | apply IH; lia].
Qed.

Lemma digits_utf8 (l : list byte) :
  Forall (fun c => Doas.digit_of c <> None) l -> Pw.utf8_valid l = true.
Proof.
  induction 1 as [|c l Hc _ IH]; [reflexivity |].
  cbn [Pw.utf8_valid]. unfold Doas.digit_of in Hc. unfold Pw.in_rng.
  destruct ((48 <=? Byte.to_N c)%N && (Byte.to_N c <=? 57)%N) eqn:E; [| contradiction].
  apply andb_true_iff in E as [_ E]. apply N.leb_le in E.
  rewrite (proj2 (N.leb_le 0 _)) by lia. rewrite (proj2 (N.leb_le _ 127)) by lia. exact IH.
Qed.

Lemma parse_u32_to_string (n : N) : (n < 2 ^ 32)%N ->
  Doas.parse_u32 (Doas.u32_to_string n) = Some n.
Proof.
  intros H.
  assert (Hp : Doas.parse_digits 0 (Doas.u32_to_string n) = Some n).
  { unfold Doas.u32_to_string. rewrite dec_aux_parse; [reflexivity | cbn; lia | exact H]. }
  pose proof (dec_aux_digits 10 n [] (List.Forall_nil _)) as Hd.
  pose proof (dec_aux_nonempty 10 n [] ltac:(discriminate)) as Hne.
  unfold Doas.u32_to_string in *.
  destruct (Doas.dec_aux 10 n []) as [|c [|c' rest]]; [contradiction | |];
    inversion Hd as [|? ? Hc _]; subst;
    (destruct (Byte.eqb c x2b) eqn:Ep; [apply byte_eqb_iff in Ep; subst c; contradiction |]);
    cbn [Doas.parse_u32]; rewrite Ep; [| exact Hp].
  destruct (Byte.eqb c x2d) eqn:Em; [apply byte_eqb_iff in Em; subst c; contradiction |].
  exact Hp.
Qed.

Lemma env_lookup_set_var (e : list (list byte * list byte)) (k v : list byte) :
  Doas.env_lookup (Doas.set_var e k v) k = Some v.
Proof. cbn. rewrite bool_decide_true by reflexivity. reflexivity. Qed.

(** A non-root run of [ensure_running_doas] re-executes the program as
    ["doas" exe args] (arguments containing a nul dropped) with DOAS_UID
    set to the decimal euid; when the re-executed root process inherits
    that DOAS_UID and has DOAS_USER, [ensure_running_doas] returns that
    user and exactly the original euid. *)
Theorem ensure_running_doas_round_trip (p : Doas.Proc) (exe : list byte)
  (Hroot : Doas.is_root_user p = false) (Hn : (Doas.euid p < 2 ^ 32)%N)
  (Hexe : Doas.current_exe p = Ok exe) (Hnul : Doas.has_nul exe = false)
  (Hexec : Doas.exec_ok p = true) :
  let env' := Doas.set_var (Doas.env p) Doas.DOAS_UID (Doas.u32_to_string (Doas.euid p)) in
  Doas.ensure_running_doas p =
    Doas.DExec Doas.doas_bin (exe :: List.filter (fun a => negb (Doas.has_nul a)) (Doas.args p)) env' /\
  (forall (p' : Doas.Proc) (user : list byte),
     Doas.is_root_user p' = true ->
     Doas.env_var (Doas.env p') Doas.DOAS_USER = Some user ->
     Doas.env_lookup (Doas.env p') Doas.DOAS_UID = Doas.env_lookup env' Doas.DOAS_UID ->
     Doas.ensure_running_doas p' = Doas.DReturns user (Doas.euid p)).
Proof.
  cbv zeta. split.
  - unfold Doas.ensure_running_doas, Doas.doas_argv.
    rewrite Hroot, Hexe, Hnul, Hexec. reflexivity.
  - intros p' user Hr Hu Hl.
    unfold Doas.ensure_running_doas. rewrite Hr, Hu.
    unfold Doas.env_var at 1. rewrite Hl, env_lookup_set_var.
    rewrite digits_utf8 by apply dec_aux_digits, List.Forall_nil.
    rewrite parse_u32_to_string by exact Hn. reflexivity.
Qed.

(* ------------------------------------------------------------------ *)
(** ** Instances of the conditional properties *)

(** [toggles_last_call_wins] on the sample console settings. *)
Lemma toggles_last_call_wins_witness :
  flags_ok Sample.termios0 = true /\
  let t := Sample.termios0 in
  Tty.enable_echo_f (Tty.disable_echo_f t) = Tty.enable_echo_f t /\
  Tty.disable_echo_f (Tty.enable_echo_f t) = Tty.disable_echo_f t /\
  Tty.enable_flow_control_f (Tty.disable_flow_control_f t) = Tty.enable_flow_control_f t /\
  Tty.disable_flow_control_f (Tty.enable_flow_control_f t) = Tty.disable_flow_control_f t /\
  Tty.enable_output_processing_f (Tty.disable_output_processing_f t) = Tty.enable_output_processing_f t /\
  Tty.disable_output_processing_f (Tty.enable_output_processing_f t) = Tty.disable_output_processing_f t.
Proof.
  split; [reflexivity |].
  apply (toggles_last_call_wins Sample.termios0). reflexivity.
Defined.

(** [toggle_round_trip_iff] on the sample console settings. *)
Lemma toggle_round_trip_iff_witness :
  flags_ok Sample.termios0 = true /\
  let t := Sample.termios0 in
  (Tty.enable_echo_f (Tty.disable_echo_f t) = t <->
     Z.land (Tty.c_lflag t) (Z.lor Tty.ECHO Tty.ECHONL) = Z.lor Tty.ECHO Tty.ECHONL) /\
  (Tty.disable_echo_f (Tty.enable_echo_f t) = t <->
     Z.land (Tty.c_lflag t) (Z.lor Tty.ECHO Tty.ECHONL) = 0) /\
  (Tty.enable_flow_control_f (Tty.disable_flow_control_f t) = t <->
     Z.land (Tty.c_iflag t) Tty.IXON = Tty.IXON) /\
  (Tty.disable_flow_control_f (Tty.enable_flow_control_f t) = t <->
     Z.land (Tty.c_iflag t) Tty.IXON = 0) /\
  (Tty.enable_output_processing_f (Tty.disable_output_processing_f t) = t <->
     Z.land (Tty.c_oflag t) Tty.OPOST = Tty.OPOST) /\
  (Tty.disable_output_processing_f (Tty.enable_output_processing_f t) = t <->
     Z.land (Tty.c_oflag t) Tty.OPOST = 0).
Proof.
  split; [reflexivity |].
  apply (toggle_round_trip_iff Sample.termios0). reflexivity.
Defined.

(** [input_timeout_monotone] for 0.15 s and 2 s. *)
Lemma input_timeout_monotone_witness :
  (Tty.as_millis (Tty.mkDuration 0 150000000) <= Tty.as_millis (Tty.mkDuration 2 0))%N /\
  Tty.tenths_of (Tty.mkDuration 0 150000000) <= Tty.tenths_of (Tty.mkDuration 2 0).
Proof.
  split; [apply N.leb_le; reflexivity |].
  apply (input_timeout_monotone (Tty.mkDuration 0 150000000) (Tty.mkDuration 2 0)).
  apply N.leb_le; reflexivity.
Defined.

(** [prompt_yn_answers_first_decisive_key] with the keys 'a' then 'y'. *)
Lemma prompt_yn_answers_first_decisive_key_witness :
  Forall (fun c => (length c <= 4)%nat) [[x61]; [x79]] /\
  Sess.set_script (Sess.world (Sample.state0 [] (map RData [[x61]; [x79]]))) = [] /\
  Sess.input (Sess.world (Sample.state0 [] (map RData [[x61]; [x79]]))) = map RData [[x61]; [x79]] /\
  (length [[x61]; [x79]] <= 3)%nat /\
  fst (fst (Lib.prompt_yn 3 None (txt "Continue") (Sample.state0 [] (map RData [[x61]; [x79]])))) =
    match yn_answer None [[x61]; [x79]] with Some b => Returns b | None => Running end /\
  Forall (fun o => o = Lib.yn_prompt None (txt "Continue"))
    (snd (fst (Lib.prompt_yn 3 None (txt "Continue") (Sample.state0 [] (map RData [[x61]; [x79]]))))).
Proof.
  split; [apply (bool_decide_unpack _); vm_compute; reflexivity |].
  split; [reflexivity | split; [reflexivity | split; [cbn; lia |]]].
  apply (prompt_yn_answers_first_decisive_key 3 None (txt "Continue") [[x61]; [x79]]
           (Sample.state0 [] (map RData [[x61]; [x79]])));
    [apply (bool_decide_unpack _); vm_compute; reflexivity | reflexivity | reflexivity | cbn; lia].
Defined.

(** [read_line_keeps_terminator] on a fresh password and "hello". *)
Lemma read_line_keeps_terminator_witness :
  length (Pw.buf Pw.new) = Pw.PASSWORD_BUFFER_LEN /\ Pw.buf Pw.new !! 511%nat = Some x00 /\
  let '(r, p', fd') := Pw.read_line Pw.new [RData Sample.hello] in
  length (Pw.buf p') = Pw.PASSWORD_BUFFER_LEN /\ Pw.buf p' !! 511%nat = Some x00 /\
  exists l, Pw.as_bytes p' = Some l /\ (length l <= 511)%nat.
Proof.
  split; [reflexivity | split; [vm_compute; reflexivity |]].
  apply (read_line_keeps_terminator Pw.new [RData Sample.hello]);
    [reflexivity | vm_compute; reflexivity].
Defined.

(** [read_line_error_keeps_partial_input] with "hel" read before an I/O
    error. *)
Lemma read_line_error_keeps_partial_input_witness :
  Forall (fun c => c <> []) [[x68; x65; x6c]] /\ (x0a ∉ concat [[x68; x65; x6c]]) /\
  (length (concat [[x68; x65; x6c]]) < 511)%nat /\
  Pw.read_line Pw.new (map RData [[x68; x65; x6c]] ++ RFail (OsError 5) :: [RData Sample.world_]) =
  (Err (OsError 5),
   Pw.mkPassword (concat [[x68; x65; x6c]] ++ repeat x00 (512 - length (concat [[x68; x65; x6c]]))),
   [RData Sample.world_]).
Proof.
  split; [apply (bool_decide_unpack _); vm_compute; reflexivity |].
  split; [apply (bool_decide_unpack _); vm_compute; reflexivity | split; [cbn; lia |]].
  apply (read_line_error_keeps_partial_input [[x68; x65; x6c]] (OsError 5) [RData Sample.world_]);
    [apply (bool_decide_unpack _); vm_compute; reflexivity
    | apply (bool_decide_unpack _); vm_compute; reflexivity | cbn; lia].
Defined.

(** [ensure_running_doas_round_trip] for euid 1000 running "/bin/prog". *)
Lemma ensure_running_doas_round_trip_witness :
  let exe := String.list_byte_of_string "/bin/prog"%string in
  let p := Doas.mkProc 1000 [] (Ok exe) [exe; String.list_byte_of_string "-v"%string] true in
  Doas.is_root_user p = false /\ (Doas.euid p < 2 ^ 32)%N /\ Doas.current_exe p = Ok exe /\
  Doas.has_nul exe = false /\ Doas.exec_ok p = true /\
  let env' := Doas.set_var (Doas.env p) Doas.DOAS_UID (Doas.u32_to_string (Doas.euid p)) in
  Doas.ensure_running_doas p =
    Doas.DExec Doas.doas_bin (exe :: List.filter (fun a => negb (Doas.has_nul a)) (Doas.args p)) env' /\
  (forall (p' : Doas.Proc) (user : list byte),
     Doas.is_root_user p' = true ->
     Doas.env_var (Doas.env p') Doas.DOAS_USER = Some user ->
     Doas.env_lookup (Doas.env p') Doas.DOAS_UID = Doas.env_lookup env' Doas.DOAS_UID ->
     Doas.ensure_running_doas p' = Doas.DReturns user (Doas.euid p)).
Proof.
  cbv zeta.
  split; [reflexivity | split; [reflexivity | split; [reflexivity | split; [reflexivity | split; [reflexivity |]]]]].
  apply (ensure_running_doas_round_trip
           (Doas.mkProc 1000 [] (Ok (String.list_byte_of_string "/bin/prog"%string))
              [String.list_byte_of_string "/bin/prog"%string; String.list_byte_of_string "-v"%string] true)
           (String.list_byte_of_string "/bin/prog"%string));
    reflexivity.
Defined.
